(** * Pomodoro timer: the session engine of [src/App.tsx]

    A shallow embedding of the [App] component and of its [SettingsModal]:
    the hook state, the two [useEffect] bodies with their dependency
    arrays, the interval registered with the host, and the event handlers.

    Every number the component holds is a JavaScript double that is an
    integer or an infinity.  Such a number is modelled as a [Z] with the
    rounding of double arithmetic written out, [2 ^ 1024] standing for
    [Infinity]; [NaN], where it can arise, is written separately.  The one
    fractional quantity, [progress], is the exact rational value of the
    double the code computes. *)

From Stdlib Require Import ZArith QArith List String Ascii Bool Lia Lqa.
Import ListNotations.
Local Open Scope Z_scope.

(** ** Modes and settings *)

(** [type Mode = 'pomodoro' | 'shortBreak' | 'longBreak'] *)
Inductive Mode : Type := pomodoro | shortBreak | longBreak.

Definition Mode_eqb (a b : Mode) : bool :=
  match a, b with
  | pomodoro, pomodoro | shortBreak, shortBreak | longBreak, longBreak => true
  | _, _ => false
  end.

(** [interface Settings]: one number of seconds per mode. *)
Record Settings : Type := mkSettings {
  for_pomodoro : Z;
  for_shortBreak : Z;
  for_longBreak : Z
}.

(** [settings[mode]] *)
Definition at_mode (st : Settings) (k : Mode) : Z :=
  match k with
  | pomodoro => for_pomodoro st
  | shortBreak => for_shortBreak st
  | longBreak => for_longBreak st
  end.

Definition DEFAULT_SETTINGS : Settings :=
  mkSettings (25 * 60) (5 * 60) (15 * 60).

(** A [Settings] object on the JavaScript heap.  [useState] and the
    dependency arrays compare objects with [Object.is], that is by
    identity, so the model keeps the identity next to the contents. *)
Record SettingsObj : Type := mkObj {
  obj_id : nat;
  obj_val : Settings
}.

(** ** JavaScript numbers *)

(** The value every larger magnitude rounds to: [Infinity]. *)
Definition INF : Z := 2 ^ 1024.

Definition is_inf (x : Z) : bool := INF <=? Z.abs x.

(** The integer nearest to [n / d], ties going to the even one
    ([d] above zero). *)
Definition half_even (n d : Z) : Z :=
  let q := n / d in
  let r := n mod d in
  if 2 * r <? d then q
  else if d <? 2 * r then q + 1
  else if Z.even q then q else q + 1.

(** The gap between neighbouring doubles at the size of [z]: a double
    has 53 significant bits. *)
Definition grid (z : Z) : Z := 2 ^ Z.max 0 (Z.log2 z - 52).

(** The double nearest to an integer that is not negative. *)
Definition round_pos (z : Z) : Z :=
  Z.min (half_even z (grid z) * grid z) INF.

(** The double nearest to an integer. *)
Definition roundZ (z : Z) : Z :=
  if z <? 0 then - round_pos (- z) else round_pos z.

(** [x - 1]; [Infinity - 1] is [Infinity], which is also what the
    rounding of [2 ^ 1024 - 1] gives. *)
Definition js_sub1 (x : Z) : Z := roundZ (x - 1).

(** [x * 60] *)
Definition js_mul60 (x : Z) : Z := roundZ (x * 60).

(** [x + y]; [None] is [NaN], the sum of the two infinities. *)
Definition js_add (x y : Z) : option Z :=
  if INF <=? x then (if y <=? - INF then None else Some INF)
  else if x <=? - INF then (if INF <=? y then None else Some (- INF))
  else if INF <=? y then Some INF
  else if y <=? - INF then Some (- INF)
  else Some (roundZ (x + y)).

(** [floor (log2 (n / d))] for [n] and [d] above zero. *)
Definition log2_ratio (n d : Z) : Z :=
  let k := Z.log2 n - Z.log2 d in
  if (if 0 <=? k then d * 2 ^ k <=? n else d <=? n * 2 ^ (- k))
  then k else k - 1.

(** The double nearest to the rational [n / d], [n] not negative and
    [d] above zero, as a pair [(m, e)] that stands for [m * 2 ^ e]; the
    exponent stops at that of the subnormal numbers. *)
Definition nearest64 (n d : Z) : Z * Z :=
  if n =? 0 then (0, 0)
  else
    let e := Z.max (log2_ratio n d - 52) (-1074) in
    (if 0 <=? e
     then half_even n (d * 2 ^ e)
     else half_even (n * 2 ^ (- e)) d,
     e).

(** [Math.floor] of [m * 2 ^ e]. *)
Definition dy_floor (v : Z * Z) : Z :=
  let (m, e) := v in
  if 0 <=? e then m * 2 ^ e else m / 2 ^ (- e).

(** [Math.floor(x / d)] for finite [x] and [d] above zero: the quotient
    is rounded to a double first. *)
Definition js_floor_div (x d : Z) : Z :=
  if x <? 0
  then let (m, e) := nearest64 (- x) d in dy_floor (- m, e)
  else dy_floor (nearest64 x d).

(** ** JavaScript pieces used by the settings form *)

(** A form field of [localSettings]: a number, the empty string that
    [handleChange] stores when the input is cleared, or [NaN]. *)
Inductive Field : Type :=
| FNum (n : Z)
| FEmpty
| FNaN.

(** [f || 0] on a field: the empty string, zero and [NaN] are falsy. *)
Definition or_zero (f : Field) : Z :=
  match f with
  | FNum n => n
  | FEmpty => 0
  | FNaN => 0
  end.

(** [x || fallback] on a number that is not [NaN]: zero is falsy. *)
Definition or_else (x fallback : Z) : Z :=
  if x =? 0 then fallback else x.

Definition byte (c : ascii) : nat := nat_of_ascii c.

(** White space of one byte: TAB, LF, VT, FF, CR and the space. *)
Definition isWhite (c : ascii) : bool :=
  let n := byte c in
  (Nat.eqb n 32 || (Nat.leb 9 n && Nat.leb n 13))%bool.

(** White space of three bytes in UTF-8: U+1680, U+2000 to U+200A,
    U+2028, U+2029, U+202F, U+205F, U+3000 and U+FEFF. *)
Definition isWhite3 (a b c : nat) : bool :=
  ((Nat.eqb a 225 && Nat.eqb b 154 && Nat.eqb c 128)
   || (Nat.eqb a 226 && Nat.eqb b 128
       && ((Nat.leb 128 c && Nat.leb c 138)
           || Nat.eqb c 168 || Nat.eqb c 169 || Nat.eqb c 175))
   || (Nat.eqb a 226 && Nat.eqb b 129 && Nat.eqb c 159)
   || (Nat.eqb a 227 && Nat.eqb b 128 && Nat.eqb c 128)
   || (Nat.eqb a 239 && Nat.eqb b 187 && Nat.eqb c 191))%bool.

(** Leading white space is dropped; a string is held as its UTF-8
    bytes, U+00A0 being the one white space of two bytes. *)
Fixpoint skipWhite (v : string) : string :=
  match v with
  | String c1 r1 =>
      if isWhite c1 then skipWhite r1
      else if Nat.eqb (byte c1) 194 then
        match r1 with
        | String c2 r2 => if Nat.eqb (byte c2) 160 then skipWhite r2 else v
        | EmptyString => v
        end
      else if (Nat.leb 225 (byte c1) && Nat.leb (byte c1) 239)%bool then
        match r1 with
        | String c2 (String c3 r3) =>
            if isWhite3 (byte c1) (byte c2) (byte c3)
            then skipWhite r3 else v
        | _ => v
        end
      else v
  | EmptyString => v
  end.

Definition digitOf (c : ascii) : option Z :=
  let n := Z.of_nat (nat_of_ascii c) in
  if ((48 <=? n) && (n <=? 57))%bool then Some (n - 48) else None.

(** The longest prefix of decimal digits, as a number; [None] when the
    prefix is empty. *)
Fixpoint digits (acc : option Z) (v : string) : option Z :=
  match v with
  | EmptyString => acc
  | String c r =>
      match digitOf c with
      | Some d =>
          digits (Some (10 * match acc with Some a => a | None => 0 end + d)) r
      | None => acc
      end
  end.

(** [parseInt(value, 10)]: leading white space is skipped, a sign is
    read, then the longest run of digits, and the integer they spell is
    rounded to a double; [None] stands for [NaN]. *)
Definition parseInt (v : string) : option Z :=
  match skipWhite v with
  | String "-"%char r => option_map (fun n => roundZ (- n)) (digits None r)
  | String "+"%char r => option_map roundZ (digits None r)
  | r => option_map roundZ (digits None r)
  end.

Definition isEmptyString (v : string) : bool :=
  match v with
  | EmptyString => true
  | String _ _ => false
  end.

(** ** The settings form: [SettingsModal] *)

Module SettingsModal.

(** One row of [localSettings]: [{ m, s }]. *)
Record Entry : Type := mkEntry {
  m : Field;
  s : Field
}.

Record LocalSettings : Type := mkLocal {
  loc_pomodoro : Entry;
  loc_shortBreak : Entry;
  loc_longBreak : Entry
}.

Inductive FieldName : Type := field_m | field_s.

Definition row (l : LocalSettings) (k : Mode) : Entry :=
  match k with
  | pomodoro => loc_pomodoro l
  | shortBreak => loc_shortBreak l
  | longBreak => loc_longBreak l
  end.

Definition set_row (l : LocalSettings) (k : Mode) (e : Entry)
  : LocalSettings :=
  match k with
  | pomodoro => mkLocal e (loc_shortBreak l) (loc_longBreak l)
  | shortBreak => mkLocal (loc_pomodoro l) e (loc_longBreak l)
  | longBreak => mkLocal (loc_pomodoro l) (loc_shortBreak l) e
  end.

Definition set_field (e : Entry) (f : FieldName) (v : Field) : Entry :=
  match f with
  | field_m => mkEntry v (s e)
  | field_s => mkEntry (m e) v
  end.

(** [{ m: Math.floor(x / 60), s: x % 60 }]; [%] is the truncating
    remainder, exact on doubles; an infinite [x] gives an infinite [m]
    and [NaN] for [s]. *)
Definition entry_of (x : Z) : Entry :=
  if is_inf x then mkEntry (FNum x) FNaN
  else mkEntry (FNum (js_floor_div x 60)) (FNum (Z.rem x 60)).

(** The initial value of the [localSettings] hook. *)
Definition initial (st : Settings) : LocalSettings :=
  mkLocal (entry_of (for_pomodoro st))
          (entry_of (for_shortBreak st))
          (entry_of (for_longBreak st)).

(** [handleChange(mode, field, value)]: a parsed number that is not
    negative is stored; the empty string is stored as such; any other
    value leaves [localSettings] as it was. *)
Definition handleChange (l : LocalSettings) (k : Mode) (f : FieldName)
    (value : string) : LocalSettings :=
  let accepted :=
    match parseInt value with
    | Some num => if 0 <=? num then Some num else None
    | None => None
    end in
  match accepted with
  | Some num => set_row l k (set_field (row l k) f (FNum num))
  | None =>
      if isEmptyString value
      then set_row l k (set_field (row l k) f FEmpty)
      else l
  end.

(** [mins * 60 + secs]; a sum that is [NaN] is falsy like zero in what
    follows and is given as zero. *)
Definition seconds_of (mins secs : Z) : Z :=
  match js_add (js_mul60 mins) secs with
  | Some v => v
  | None => 0
  end.

(** The sum [((e.m || 0) * 60) + (e.s || 0)] of one row. *)
Definition total (e : Entry) : Z :=
  seconds_of (or_zero (m e)) (or_zero (s e)).

(** One property of [finalSettings]:
    [((e.m || 0) * 60) + (e.s || 0) || fallback]. *)
Definition finalSeconds (e : Entry) (fallback : Z) : Z :=
  or_else (total e) fallback.

(** The object literal [finalSettings] built by [handleSave]. *)
Definition finalSettings (l : LocalSettings) : Settings :=
  mkSettings
    (finalSeconds (loc_pomodoro l) (for_pomodoro DEFAULT_SETTINGS))
    (finalSeconds (loc_shortBreak l) (for_shortBreak DEFAULT_SETTINGS))
    (finalSeconds (loc_longBreak l) (for_longBreak DEFAULT_SETTINGS)).

End SettingsModal.

(** ** The completion sound *)

Inductive Event : Type :=
| NotifyCalled
| Tone (freq start duration : Q)
| ConsoleError (msg : string).

(** The host's audio subsystem: it works, or it throws once [after]
    tones have been started. *)
Inductive AudioHost : Type :=
| AudioWorks
| AudioThrows (after : nat).

(** The three [playTone(freq, startTime, duration)] calls, with start
    times relative to [ctx.currentTime]. *)
Definition tones : list Event :=
  [ Tone 880 0 (2 # 10);
    Tone (110873 # 100) (2 # 10) (2 # 10);
    Tone (131851 # 100) (4 # 10) (4 # 10) ].

(** [playNotificationSound]: what the call leaves behind in the host. *)
Definition playNotificationSound (soundEnabled : bool) (host : AudioHost)
  : list Event :=
  if negb soundEnabled then []
  else match host with
       | AudioWorks => tones
       | AudioThrows k =>
           firstn k tones ++ [ConsoleError "Audio playback failed"]
       end.

(** ** The [App] component *)

Record App : Type := mkApp {
  (* hooks *)
  mode : Mode;
  settings : SettingsObj;
  timeLeft : Z;
  isActive : bool;
  soundEnabled : bool;
  (* [showSettings] is true: the form is shown, with its [localSettings] *)
  modal : option SettingsModal.LocalSettings;
  (* [showSettings] is false, but [<AnimatePresence>] still keeps the
     form mounted, with its [localSettings], for the exit animation *)
  lingering : option SettingsModal.LocalSettings;
  timerRef : option positive;
  (* the dependency arrays the two effects last ran with *)
  deps_timer : option (bool * Z * bool);
  deps_reset : option (Mode * nat);
  (* host: live [setInterval] handles, allocation counters, audio, trace *)
  intervals : list positive;
  nextHandle : positive;
  nextObj : nat;
  audio : AudioHost;
  log : list Event
}.

Definition set_mode (v : Mode) (a : App) : App :=
  mkApp v (settings a) (timeLeft a) (isActive a) (soundEnabled a) (modal a)
        (lingering a) (timerRef a) (deps_timer a) (deps_reset a)
        (intervals a) (nextHandle a) (nextObj a) (audio a) (log a).

Definition set_settings (v : SettingsObj) (a : App) : App :=
  mkApp (mode a) v (timeLeft a) (isActive a) (soundEnabled a) (modal a)
        (lingering a) (timerRef a) (deps_timer a) (deps_reset a)
        (intervals a) (nextHandle a) (nextObj a) (audio a) (log a).

Definition set_timeLeft (v : Z) (a : App) : App :=
  mkApp (mode a) (settings a) v (isActive a) (soundEnabled a) (modal a)
        (lingering a) (timerRef a) (deps_timer a) (deps_reset a)
        (intervals a) (nextHandle a) (nextObj a) (audio a) (log a).

Definition set_isActive (v : bool) (a : App) : App :=
  mkApp (mode a) (settings a) (timeLeft a) v (soundEnabled a) (modal a)
        (lingering a) (timerRef a) (deps_timer a) (deps_reset a)
        (intervals a) (nextHandle a) (nextObj a) (audio a) (log a).

Definition set_soundEnabled (v : bool) (a : App) : App :=
  mkApp (mode a) (settings a) (timeLeft a) (isActive a) v (modal a)
        (lingering a) (timerRef a) (deps_timer a) (deps_reset a)
        (intervals a) (nextHandle a) (nextObj a) (audio a) (log a).

Definition set_modal (v : option SettingsModal.LocalSettings) (a : App) : App :=
  mkApp (mode a) (settings a) (timeLeft a) (isActive a) (soundEnabled a) v
        (lingering a) (timerRef a) (deps_timer a) (deps_reset a)
        (intervals a) (nextHandle a) (nextObj a) (audio a) (log a).

Definition set_lingering (v : option SettingsModal.LocalSettings) (a : App) : App :=
  mkApp (mode a) (settings a) (timeLeft a) (isActive a) (soundEnabled a)
        (modal a) v (timerRef a) (deps_timer a) (deps_reset a) (intervals a)
        (nextHandle a) (nextObj a) (audio a) (log a).

Definition set_timerRef (v : option positive) (a : App) : App :=
  mkApp (mode a) (settings a) (timeLeft a) (isActive a) (soundEnabled a)
        (modal a) (lingering a) v (deps_timer a) (deps_reset a)
        (intervals a) (nextHandle a) (nextObj a) (audio a) (log a).

Definition set_deps_timer (v : option (bool * Z * bool)) (a : App) : App :=
  mkApp (mode a) (settings a) (timeLeft a) (isActive a) (soundEnabled a)
        (modal a) (lingering a) (timerRef a) v (deps_reset a) (intervals a)
        (nextHandle a) (nextObj a) (audio a) (log a).

Definition set_deps_reset (v : option (Mode * nat)) (a : App) : App :=
  mkApp (mode a) (settings a) (timeLeft a) (isActive a) (soundEnabled a)
        (modal a) (lingering a) (timerRef a) (deps_timer a) v (intervals a)
        (nextHandle a) (nextObj a) (audio a) (log a).

Definition set_intervals (v : list positive) (a : App) : App :=
  mkApp (mode a) (settings a) (timeLeft a) (isActive a) (soundEnabled a)
        (modal a) (lingering a) (timerRef a) (deps_timer a) (deps_reset a) v
        (nextHandle a) (nextObj a) (audio a) (log a).

Definition set_nextHandle (v : positive) (a : App) : App :=
  mkApp (mode a) (settings a) (timeLeft a) (isActive a) (soundEnabled a)
        (modal a) (lingering a) (timerRef a) (deps_timer a) (deps_reset a)
        (intervals a) v (nextObj a) (audio a) (log a).

Definition set_nextObj (v : nat) (a : App) : App :=
  mkApp (mode a) (settings a) (timeLeft a) (isActive a) (soundEnabled a)
        (modal a) (lingering a) (timerRef a) (deps_timer a) (deps_reset a)
        (intervals a) (nextHandle a) v (audio a) (log a).

Definition set_audio (v : AudioHost) (a : App) : App :=
  mkApp (mode a) (settings a) (timeLeft a) (isActive a) (soundEnabled a)
        (modal a) (lingering a) (timerRef a) (deps_timer a) (deps_reset a)
        (intervals a) (nextHandle a) (nextObj a) v (log a).

Definition set_log (v : list Event) (a : App) : App :=
  mkApp (mode a) (settings a) (timeLeft a) (isActive a) (soundEnabled a)
        (modal a) (lingering a) (timerRef a) (deps_timer a) (deps_reset a)
        (intervals a) (nextHandle a) (nextObj a) (audio a) v.

(** [settings[mode]] as the component reads it. *)
Definition duration (a : App) : Z :=
  at_mode (obj_val (settings a)) (mode a).

(** *** Effects *)

(** [if (timerRef.current) clearInterval(timerRef.current)]: handles
    returned by [setInterval] are positive, so the test is a null test;
    clearing a handle that is no longer live does nothing. *)
Definition clearTimer (a : App) : App :=
  match timerRef a with
  | Some h =>
      set_intervals (filter (fun i => negb (Pos.eqb i h)) (intervals a)) a
  | None => a
  end.

(** The body of the first effect.  [r] is the render whose values the
    closure reads; [p] is the state the body writes to: the ref and the
    host at once, the hooks through their setters, whose updates are seen
    by the next render. *)
Definition timerEffect (r p : App) : App :=
  if (isActive r && (0 <? timeLeft r))%bool then
    let h := nextHandle p in
    set_timerRef (Some h)
      (set_intervals (h :: intervals p) (set_nextHandle (Pos.succ h) p))
  else if (isActive r && (timeLeft r =? 0))%bool then
    let p1 := set_isActive false p in
    let p2 :=
      set_log (log p1 ++ NotifyCalled
                 :: playNotificationSound (soundEnabled r) (audio p1)) p1 in
    clearTimer p2
  else p.

(** The body of the second effect:
    [setTimeLeft(settings[mode]); setIsActive(false)]. *)
Definition resetEffect (r p : App) : App :=
  set_isActive false (set_timeLeft (duration r) p).

Definition deps_timer_of (a : App) : bool * Z * bool :=
  (isActive a, timeLeft a, soundEnabled a).

Definition deps_reset_of (a : App) : Mode * nat :=
  (mode a, obj_id (settings a)).

Definition same_deps_timer (o : option (bool * Z * bool))
    (d : bool * Z * bool) : bool :=
  match o, d with
  | Some (b1, z1, c1), (b2, z2, c2) =>
      (Bool.eqb b1 b2 && (z1 =? z2) && Bool.eqb c1 c2)%bool
  | None, _ => false
  end.

Definition same_deps_reset (o : option (Mode * nat)) (d : Mode * nat)
  : bool :=
  match o, d with
  | Some (k1, i1), (k2, i2) => (Mode_eqb k1 k2 && Nat.eqb i1 i2)%bool
  | None, _ => false
  end.

(** One commit: every effect whose dependency array differs from the one
    it last ran with runs again, the first effect's cleanup before its
    body.  [playNotificationSound] is a [useCallback] over
    [soundEnabled], so its identity changes exactly when that flag does. *)
Definition flushEffects (r : App) : App :=
  let p1 :=
    if same_deps_timer (deps_timer r) (deps_timer_of r) then r
    else
      let cleaned :=
        match deps_timer r with
        | Some _ => clearTimer r
        | None => r
        end in
      set_deps_timer (Some (deps_timer_of r)) (timerEffect r cleaned) in
  if same_deps_reset (deps_reset r) (deps_reset_of r) then p1
  else set_deps_reset (Some (deps_reset_of r)) (resetEffect r p1).

(** No effect is due. *)
Definition quiescent (a : App) : bool :=
  (same_deps_timer (deps_timer a) (deps_timer_of a)
   && same_deps_reset (deps_reset a) (deps_reset_of a))%bool.

(** Render and commit until no effect is due. *)
Fixpoint settle_fuel (fuel : nat) (a : App) : App :=
  match fuel with
  | O => a
  | S n => if quiescent a then a else settle_fuel n (flushEffects a)
  end.

Definition settle : App -> App := settle_fuel 3.

(** *** Event handlers *)

Definition setMode (k : Mode) (a : App) : App := set_mode k a.

Definition toggleTimer (a : App) : App :=
  set_isActive (negb (isActive a)) a.

Definition resetTimer (a : App) : App :=
  set_timeLeft (duration a) (set_isActive false a).

(** [setShowSettings(false)]: a form that is shown starts its exit
    animation and stays mounted; otherwise nothing changes. *)
Definition closeSettings (a : App) : App :=
  match modal a with
  | Some l => set_lingering (Some l) (set_modal None a)
  | None => a
  end.

(** [setSettings(newSettings); setShowSettings(false)] *)
Definition handleSaveSettings (newSettings : SettingsObj) (a : App) : App :=
  closeSettings (set_settings newSettings a).

(** A new object literal with contents [cfg] is passed to
    [handleSaveSettings]. *)
Definition saveFresh (cfg : Settings) (a : App) : App :=
  handleSaveSettings (mkObj (nextObj a) cfg)
    (set_nextObj (S (nextObj a)) a).

(** The form that is mounted, shown or on its way out. *)
Definition mounted (a : App) : option SettingsModal.LocalSettings :=
  match modal a with
  | Some l => Some l
  | None => lingering a
  end.

(** [handleSave], the form's save button. *)
Definition handleSave (a : App) : App :=
  match mounted a with
  | Some l => saveFresh (SettingsModal.finalSettings l) a
  | None => a
  end.

(** [setShowSettings(true)]: a form still mounted for its exit animation
    is shown again as it is; otherwise a new form mounts with its initial
    state; if the form is shown already nothing changes. *)
Definition openSettings (a : App) : App :=
  match modal a with
  | Some _ => a
  | None =>
      match lingering a with
      | Some l => set_lingering None (set_modal (Some l) a)
      | None =>
          set_modal (Some (SettingsModal.initial (obj_val (settings a)))) a
      end
  end.

(** A change event in the mounted form. *)
Definition changeField (k : Mode) (f : SettingsModal.FieldName)
    (value : string) (a : App) : App :=
  match modal a with
  | Some l => set_modal (Some (SettingsModal.handleChange l k f value)) a
  | None =>
      match lingering a with
      | Some l =>
          set_lingering (Some (SettingsModal.handleChange l k f value)) a
      | None => a
      end
  end.

(** The exit animation has ended: [<AnimatePresence>] unmounts the
    form. *)
Definition exitDone (a : App) : App := set_lingering None a.

(** The interval callback [setTimeLeft((prev) => prev - 1)], run when a
    live interval fires; with no live interval nothing is delivered. *)
Definition intervalFires (a : App) : App :=
  match intervals a with
  | [] => a
  | _ :: _ => set_timeLeft (js_sub1 (timeLeft a)) a
  end.

(** *** The component as a transition system *)

Inductive Cmd : Type :=
| SelectMode (k : Mode)
| ToggleTimer
| ResetTimer
| ToggleSound
| OpenSettings
| CloseSettings
| ExitDone
| Change (k : Mode) (f : SettingsModal.FieldName) (value : string)
| Save
| Tick
| HostAudio (h : AudioHost).

Definition handle (c : Cmd) (a : App) : App :=
  match c with
  | SelectMode k => setMode k a
  | ToggleTimer => toggleTimer a
  | ResetTimer => resetTimer a
  | ToggleSound => set_soundEnabled (negb (soundEnabled a)) a
  | OpenSettings => openSettings a
  | CloseSettings => closeSettings a
  | ExitDone => exitDone a
  | Change k f value => changeField k f value a
  | Save => handleSave a
  | Tick => intervalFires a
  | HostAudio h => set_audio h a
  end.

(** A handler runs, then the component renders until it is at rest. *)
Definition step (c : Cmd) (a : App) : App := settle (handle c a).

Definition run (cs : list Cmd) (a : App) : App :=
  fold_left (fun acc c => step c acc) cs a.

(** The hooks' initial values, before the first commit. *)
Definition mounting : App :=
  mkApp pomodoro (mkObj 0 DEFAULT_SETTINGS) (for_pomodoro DEFAULT_SETTINGS)
        false true None None None None None [] 1%positive 1%nat
        AudioWorks [].

Definition initial : App := settle mounting.

Definition reachable (a : App) : Prop := exists cs, a = run cs initial.

(** [applyConfig(newConfig)] of the engine's contract: new settings are
    saved and the component comes to rest. *)
Definition applyConfig (cfg : Settings) (a : App) : App :=
  settle (saveFresh cfg a).

Definition is_notify (e : Event) : bool :=
  match e with
  | NotifyCalled => true
  | _ => false
  end.

(** How often the completion branch called [playNotificationSound]. *)
Definition completions (a : App) : nat :=
  List.length (filter is_notify (log a)).

(** What the audio subsystem was made to do or report. *)
Definition audioEvents (a : App) : list Event :=
  filter (fun e => negb (is_notify e)) (log a).

(** The engine's session state. *)
Definition session (a : App) : Mode * Z * bool :=
  (mode a, timeLeft a, isActive a).

(** *** Progress *)

(** The result of a JavaScript arithmetic expression that need not be
    an integer: the exact value of a finite double, or what is not
    finite. *)
Inductive JsNum : Type :=
| JFin (q : Q)
| JPosInf
| JNegInf
| JNaN.

(** The double nearest to a rational. *)
Definition fl (q : Q) : JsNum :=
  let (me, e) := nearest64 (Z.abs (Qnum q)) (Zpos (Qden q)) in
  if (0 <=? e) && (INF <=? me * 2 ^ e)
  then if Qnum q <? 0 then JNegInf else JPosInf
  else
    let v := if 0 <=? e then inject_Z (me * 2 ^ e)
             else Qmake me (Z.to_pos (2 ^ (- e))) in
    JFin (if Qnum q <? 0 then Qopp v else v).

(** [x / y] on numbers that are integers or infinite. *)
Definition js_div (x y : Z) : JsNum :=
  if is_inf x then
    if is_inf y then JNaN
    else if Bool.eqb (0 <? x) (0 <=? y) then JPosInf else JNegInf
  else if is_inf y then JFin 0
  else if y =? 0 then
    if x =? 0 then JNaN else if 0 <? x then JPosInf else JNegInf
  else fl (inject_Z x / inject_Z y).

(** [1 - v] *)
Definition js_one_minus (v : JsNum) : JsNum :=
  match v with
  | JFin q => fl (1 - q)
  | JPosInf => JNegInf
  | JNegInf => JPosInf
  | JNaN => JNaN
  end.

(** [const progress = 1 - timeLeft / settings[mode]] *)
Definition progress (a : App) : JsNum :=
  js_one_minus (js_div (timeLeft a) (duration a)).

(** Half the spacing of the doubles between one half and one: the most
    one rounding moves a value of at most one. *)
Definition ulp_half : Q := 1 # (2 ^ 53).

(** ** What a commit is about to do *)

(** The timer effect is due and will take its completion branch. *)
Definition completes (a : App) : bool :=
  (negb (same_deps_timer (deps_timer a) (deps_timer_of a))
   && isActive a && (timeLeft a =? 0))%bool.

(** The reset effect is due. *)
Definition resets (a : App) : bool :=
  negb (same_deps_reset (deps_reset a) (deps_reset_of a)).

(** The live intervals are the ones the timer effect's last run left:
    one, held in [timerRef], if that run saw a running countdown above
    zero, and none otherwise. *)
Definition timer_ok (a : App) : bool :=
  match deps_timer a with
  | Some (true, z, _) =>
      if 0 <? z then
        match timerRef a, intervals a with
        | Some h, [i] => Pos.eqb h i
        | _, _ => false
        end
      else match intervals a with [] => true | _ => false end
  | _ => match intervals a with [] => true | _ => false end
  end.

(** A number that double arithmetic can have produced. *)
Definition is_double (z : Z) : Prop := exists x, z = roundZ x.

Definition field_ok (f : Field) : Prop :=
  match f with
  | FNum n => 0 <= n
  | FEmpty => True
  | FNaN => True
  end.

Definition entry_ok (e : SettingsModal.Entry) : Prop :=
  field_ok (SettingsModal.m e) /\ field_ok (SettingsModal.s e).

Definition local_ok (l : SettingsModal.LocalSettings) : Prop :=
  forall k, entry_ok (SettingsModal.row l k).

(** The invariant of the component at rest. *)
Record Inv (a : App) : Prop := mkInv {
  inv_rest : quiescent a = true;
  inv_timer : timer_ok a = true;
  inv_low : 0 <= timeLeft a;
  inv_high : timeLeft a <= duration a;
  inv_running : isActive a = true -> 0 < timeLeft a;
  inv_settings : forall k, 1 <= at_mode (obj_val (settings a)) k;
  inv_fresh : (obj_id (settings a) < nextObj a)%nat;
  inv_modal : forall l, modal a = Some l -> local_ok l;
  inv_lingering : forall l, lingering a = Some l -> local_ok l;
  inv_double : is_double (timeLeft a);
  inv_doubles : forall k, is_double (at_mode (obj_val (settings a)) k)
}.

(** What every handler leaves behind when it starts from a state at
    rest: enough for [settle] to restore the invariant. *)
Record Pre (p : App) : Prop := mkPre {
  pre_timer : timer_ok p = true;
  pre_bounds : resets p = false -> 0 <= timeLeft p <= duration p;
  pre_running :
    same_deps_timer (deps_timer p) (deps_timer_of p) = true ->
    isActive p = true -> 0 < timeLeft p;
  pre_settings : forall k, 1 <= at_mode (obj_val (settings p)) k;
  pre_fresh : (obj_id (settings p) < nextObj p)%nat;
  pre_modal : forall l, modal p = Some l -> local_ok l;
  pre_lingering : forall l, lingering p = Some l -> local_ok l;
  pre_double : is_double (timeLeft p);
  pre_doubles : forall k, is_double (at_mode (obj_val (settings p)) k)
}.

(** ** The display *)

(** The character of a decimal digit. *)
Definition digitChar (d : Z) : ascii := ascii_of_nat (Z.to_nat (48 + d)).

(** The decimal digits of a number that is not negative, most
    significant first, in front of [acc]. *)
Fixpoint toDigits (fuel : nat) (n : Z) (acc : string) : string :=
  match fuel with
  | O => acc
  | S f =>
      let acc' := String (digitChar (n mod 10)) acc in
      if n / 10 =? 0 then acc' else toDigits f (n / 10) acc'
  end.

(** Every decimal digit of an integer, as a user types it; a number has
    no more decimal digits than binary ones, which bounds the
    recursion. *)
Definition decimal (n : Z) : string :=
  if n <? 0
  then String "-"%char (toDigits (S (Z.to_nat (Z.log2 (- n)))) (- n) "")
  else toDigits (S (Z.to_nat (Z.log2 n))) n "".

(** The multiple of [10 ^ j] next to [x] that reads back as the double
    [x], the nearer one if both neighbours do. *)
Definition candidate (x j : Z) : option Z :=
  let p := 10 ^ j in
  let lo := x / p * p in
  let hi := lo + p in
  match roundZ lo =? x, roundZ hi =? x with
  | true, true =>
      Some (if x - lo <? hi - x then lo
            else if hi - x <? x - lo then hi
            else if Z.even (x / p) then lo else hi)
  | true, false => Some lo
  | false, true => Some hi
  | false, false => None
  end.

(** The decimal with the fewest significant digits that reads back as
    the double [x], with the number of its trailing zeros: the search
    goes down from the power of ten [10 ^ fuel]. *)
Fixpoint shortest (fuel : nat) (x : Z) : Z * Z :=
  match fuel with
  | O => (x, 0)
  | S f =>
      match candidate x (Z.of_nat fuel) with
      | Some c => (c, Z.of_nat fuel)
      | None => shortest f x
      end
  end.

(** Exponent form: the first significant digit, the others after a
    decimal point, and the power of ten. *)
Definition exponential (c j : Z) : string :=
  let e := decimal (Z.of_nat (String.length (decimal c)) - 1) in
  match decimal (c / 10 ^ j) with
  | String d EmptyString => String d ("e+" ++ e)
  | String d r => String d ("." ++ r ++ "e+" ++ e)
  | EmptyString => ("e+" ++ e)
  end%string.

(** [Number.prototype.toString] on a double with an integer value that
    is not negative: the shortest decimal that reads back as the
    number, written in full below [1e21] and in exponent form from
    there on.  A decimal that reads back as [x] is at most [2 * x], so
    no power of ten above [10 ^ ((log2 x + 1) / 3)] divides one. *)
Definition toStringPos (x : Z) : string :=
  if INF <=? x then "Infinity"
  else
    let (c, j) := shortest (Z.to_nat ((Z.log2 x + 1) / 3)) x in
    if c <? 10 ^ 21 then decimal c else exponential c j.

(** [x.toString()] *)
Definition toString (x : Z) : string :=
  if x <? 0 then String "-"%char (toStringPos (- x)) else toStringPos x.

Fixpoint replicate (k : nat) (c : ascii) : string :=
  match k with
  | O => EmptyString
  | S k' => String c (replicate k' c)
  end.

(** [v.padStart(target, c)] with a one-character filler. *)
Definition padStart (target : nat) (c : ascii) (v : string) : string :=
  (replicate (target - String.length v) c ++ v)%string.

(** [formatTime(seconds)]: [Math.floor(seconds / 60)] and
    [seconds % 60], which is [NaN] when [seconds] is [Infinity]. *)
Definition formatTime (seconds : Z) : string :=
  let mins := if is_inf seconds then seconds else js_floor_div seconds 60 in
  let secs :=
    if is_inf seconds then "NaN"%string
    else toString (Z.rem seconds 60) in
  (padStart 2 "0" (toString mins) ++ ":" ++ padStart 2 "0" secs)%string.

(** The label under the clock:
    [isActive ? 'Running' : timeLeft === 0 ? 'Finished' : 'Paused']. *)
Definition statusLabel (a : App) : string :=
  if isActive a then "Running"
  else if timeLeft a =? 0 then "Finished" else "Paused".

(** ** Scenarios *)

Definition one_second : list Cmd :=
  [ OpenSettings;
    Change pomodoro SettingsModal.field_m "0";
    Change pomodoro SettingsModal.field_s "1";
    Save ].

(** A one-second focus session, started. *)
Definition last_second : App := run (one_second ++ [ToggleTimer]) initial.

(** The same session after its only tick. *)
Definition finished : App := step Tick last_second.

(** The default focus session, started, one tick in. *)
Definition counting : App := run [ToggleTimer; Tick] initial.

(** The default focus session, started, ten ticks in. *)
Definition ten_ticks : App := run (ToggleTimer :: repeat Tick 10) initial.

(** The settings form, just opened over the defaults. *)
Definition form_open : App := run [OpenSettings] initial.

(** The form after the user cleared every field of the focus row. *)
Definition form_cleared : App :=
  run [ OpenSettings;
        Change pomodoro SettingsModal.field_m "";
        Change pomodoro SettingsModal.field_s "" ] initial.

(** Minus five minutes and ten seconds typed into the focus row. *)
Definition negative_entry : list Cmd :=
  [ OpenSettings;
    Change pomodoro SettingsModal.field_m "-5";
    Change pomodoro SettingsModal.field_s "10";
    Save ].

(** A focus session of [2 ^ 53 + 2] seconds typed into the form, saved
    and started. *)
Definition beyond_exact : App :=
  run [ OpenSettings;
        Change pomodoro SettingsModal.field_m "0";
        Change pomodoro SettingsModal.field_s "9007199254740994";
        Save;
        ToggleTimer ] initial.

(** A focus session of [2 ^ 54] seconds typed into the form, saved and
    started. *)
Definition far_running : App :=
  run [ OpenSettings;
        Change pomodoro SettingsModal.field_m "0";
        Change pomodoro SettingsModal.field_s "18014398509481984";
        Save;
        ToggleTimer ] initial.

(** A one followed by 308 zeros: a finite double. *)
Definition huge_minutes : string := String "1" (replicate 308 "0").

(** A focus session of that many minutes: sixty times as many seconds
    are [Infinity]. *)
Definition endless : App :=
  run [ OpenSettings;
        Change pomodoro SettingsModal.field_m huge_minutes;
        Save ] initial.

(** The same session, started. *)
Definition endless_running : App := step ToggleTimer endless.

(** The form with an unsaved edit of the focus minutes. *)
Definition form_edited : App :=
  run [ OpenSettings; Change pomodoro SettingsModal.field_m "7" ] initial.

(** ** Typing a configuration into the form *)

(** Zero minutes and the decimal text of [x] seconds typed into row [k]. *)
Definition enterRow (k : Mode) (x : Z) : list Cmd :=
  [ Change k SettingsModal.field_m "0";
    Change k SettingsModal.field_s (decimal x) ].

(** The form opened, every row typed in, and saved. *)
Definition enterConfig (cfg : Settings) : list Cmd :=
  OpenSettings
    :: enterRow pomodoro (for_pomodoro cfg)
    ++ enterRow shortBreak (for_shortBreak cfg)
    ++ enterRow longBreak (for_longBreak cfg)
    ++ [Save].

(** Commands that only touch the settings form. *)
Definition form_only (c : Cmd) : bool :=
  match c with
  | OpenSettings | CloseSettings | ExitDone | Change _ _ _ => true
  | _ => false
  end.

(** Commands other than a tick and the start/pause button. *)
Definition silent (c : Cmd) : bool :=
  match c with
  | Tick | ToggleTimer => false
  | _ => true
  end.


(** * Proofs *)

(** ** Double arithmetic on integers *)

Lemma half_even_bounds n d :
  0 < d -> n / d <= half_even n d <= n / d + 1.
Proof.
  intros D. unfold half_even.
  destruct (2 * (n mod d) <? d); [lia|].
  destruct (d <? 2 * (n mod d)); [lia|].
  destruct (Z.even (n / d)); lia.
Qed.

Lemma half_even_exact n d :
  0 < d -> n mod d = 0 -> half_even n d = n / d.
Proof.
  intros D M. unfold half_even. rewrite M.
  replace (2 * 0 <? d) with true by (symmetry; apply Z.ltb_lt; lia).
  reflexivity.
Qed.

Lemma grid_pos z : 0 < grid z.
Proof. unfold grid. apply Z.pow_pos_nonneg; lia. Qed.

Lemma grid_small z : z < 2 ^ 53 -> grid z = 1.
Proof.
  intros H. unfold grid.
  assert (L : Z.log2 z <= 52).
  { destruct (Z.le_gt_cases z 0) as [N|P].
    - rewrite Z.log2_nonpos by exact N. lia.
    - assert (Z.log2 z < 53) by (apply Z.log2_lt_pow2; lia). lia. }
  now rewrite Z.max_l by lia.
Qed.

Lemma grid_le z : 1 <= z -> grid z <= z.
Proof.
  intros H. unfold grid.
  pose proof (Z.log2_nonneg z) as L.
  pose proof (Z.log2_spec z ltac:(lia)) as [S _].
  assert (2 ^ Z.max 0 (Z.log2 z - 52) <= 2 ^ Z.log2 z)
    by (apply Z.pow_le_mono_r; lia).
  lia.
Qed.

Lemma INF_pos : 2 ^ 53 < INF.
Proof. unfold INF. apply Z.pow_lt_mono_r; lia. Qed.

Lemma round_pos_exact z : 0 <= z <= 2 ^ 53 -> round_pos z = z.
Proof.
  intros [Lo Hi]. pose proof INF_pos as I. unfold round_pos.
  destruct (Z.eq_dec z (2 ^ 53)) as [->|N].
  - vm_compute. reflexivity.
  - rewrite grid_small by lia.
    rewrite half_even_exact, Z.div_1_r by (try apply Z.mod_1_r; lia).
    lia.
Qed.

Lemma roundZ_exact z : - 2 ^ 53 <= z <= 2 ^ 53 -> roundZ z = z.
Proof.
  intros H. unfold roundZ. destruct (Z.ltb_spec z 0).
  - rewrite round_pos_exact by lia. lia.
  - apply round_pos_exact. lia.
Qed.

Lemma round_pos_nonneg z : 0 <= z -> 0 <= round_pos z.
Proof.
  intros H. unfold round_pos. pose proof (grid_pos z) as G.
  pose proof (half_even_bounds z (grid z) G) as [B _].
  pose proof (Z.div_pos z (grid z) H G).
  pose proof INF_pos. apply Z.min_glb; [|lia].
  apply Z.mul_nonneg_nonneg; lia.
Qed.

Lemma round_pos_pos z : 1 <= z -> 1 <= round_pos z.
Proof.
  intros H. unfold round_pos. pose proof (grid_pos z) as G.
  pose proof (half_even_bounds z (grid z) G) as [B _].
  pose proof (grid_le z H) as L.
  assert (1 <= z / grid z) by (apply Z.div_le_lower_bound; lia).
  pose proof INF_pos. apply Z.min_glb; [|lia]. nia.
Qed.

Lemma round_pos_le_INF z : round_pos z <= INF.
Proof. unfold round_pos. apply Z.le_min_r. Qed.

Lemma roundZ_nonneg z : 0 <= z -> 0 <= roundZ z.
Proof.
  intros H. unfold roundZ.
  replace (z <? 0) with false by (symmetry; apply Z.ltb_ge; lia).
  now apply round_pos_nonneg.
Qed.

Lemma roundZ_pos z : 1 <= z -> 1 <= roundZ z.
Proof.
  intros H. unfold roundZ.
  replace (z <? 0) with false by (symmetry; apply Z.ltb_ge; lia).
  now apply round_pos_pos.
Qed.

Lemma roundZ_neg z : z <= -1 -> roundZ z <= -1.
Proof.
  intros H. unfold roundZ.
  replace (z <? 0) with true by (symmetry; apply Z.ltb_lt; lia).
  pose proof (round_pos_pos (- z) ltac:(lia)). lia.
Qed.

Lemma roundZ_le_INF z : roundZ z <= INF.
Proof.
  unfold roundZ. destruct (Z.ltb_spec z 0).
  - pose proof (round_pos_nonneg (- z) ltac:(lia)). pose proof INF_pos. lia.
  - apply round_pos_le_INF.
Qed.

Lemma roundZ_zero z : roundZ z = 0 <-> z = 0.
Proof.
  split; [|intros ->; reflexivity]. intros H.
  destruct (Z.lt_trichotomy z 0) as [N|[E|P]]; [|exact E|].
  - pose proof (roundZ_neg z ltac:(lia)). lia.
  - pose proof (roundZ_pos z ltac:(lia)). lia.
Qed.

Lemma is_double_small z : - 2 ^ 53 <= z <= 2 ^ 53 -> is_double z.
Proof. intros H. exists z. symmetry. now apply roundZ_exact. Qed.

Lemma is_double_roundZ x : is_double (roundZ x).
Proof. now exists x. Qed.

(** One off a double that is at least one rounds to a double between
    zero and that double. *)
Lemma sub1_bounds z :
  is_double z -> 1 <= z -> 0 <= js_sub1 z <= z.
Proof.
  intros [x E] P. unfold js_sub1.
  split; [apply roundZ_nonneg; lia|].
  assert (X : 1 <= x).
  { destruct (Z.le_gt_cases x 0) as [N|X]; [|lia].
    destruct (Z.eq_dec x 0) as [->|N0]; [cbn in E; lia|].
    pose proof (roundZ_neg x ltac:(lia)). lia. }
  unfold roundZ in *.
  replace (x <? 0) with false in E by (symmetry; apply Z.ltb_ge; lia).
  replace (z - 1 <? 0) with false by (symmetry; apply Z.ltb_ge; lia).
  unfold round_pos in E.
  destruct (Z.le_gt_cases INF (half_even x (grid x) * grid x)) as [O|F].
  - rewrite Z.min_r in E by exact O. subst z. apply round_pos_le_INF.
  - rewrite Z.min_l in E by lia.
    unfold round_pos. etransitivity; [apply Z.le_min_l|].
    set (a := Z.max 0 (Z.log2 x - 52)).
    set (a' := Z.max 0 (Z.log2 (z - 1) - 52)).
    assert (G : grid x = 2 ^ a) by reflexivity.
    assert (G' : grid (z - 1) = 2 ^ a') by reflexivity.
    pose proof (grid_pos x) as Gp. pose proof (grid_pos (z - 1)) as Gp'.
    pose proof (half_even_bounds x (grid x) Gp) as [Hl Hu].
    assert (A : a' <= a).
    { destruct (Z.eq_dec z 1) as [->|N1]; [cbn; lia|].
      assert (Z.log2 (z - 1) <= Z.log2 x); [|lia].
      destruct (Z.le_gt_cases (Z.log2 x) 52) as [S|B].
      - assert (grid x = 1) by (rewrite G; unfold a; now rewrite Z.max_l by lia).
        assert (z = x).
        { rewrite E. replace (grid x) with 1 by congruence.
          rewrite half_even_exact, Z.div_1_r by (try apply Z.mod_1_r; lia).
          lia. }
        apply Z.log2_le_mono. lia.
      - assert (Ea : a = Z.log2 x - 52) by (unfold a; lia).
        pose proof (Z.log2_spec x ltac:(lia)) as [_ U].
        assert (Px : 2 ^ Z.succ (Z.log2 x) = 2 ^ 53 * grid x).
        { rewrite G, Ea, <- Z.pow_add_r by lia. f_equal. lia. }
        assert (x / grid x < 2 ^ 53)
          by (apply Z.div_lt_upper_bound; lia).
        assert (z <= 2 ^ Z.succ (Z.log2 x)) by (rewrite Px; nia).
        assert (Z.log2 (z - 1) < Z.succ (Z.log2 x))
          by (apply Z.log2_lt_pow2; lia).
        lia. }
    assert (D : grid x = 2 ^ (a - a') * grid (z - 1)).
    { rewrite G, G', <- Z.pow_add_r by (unfold a'; lia). f_equal. lia. }
    set (c := half_even x (grid x) * 2 ^ (a - a')).
    assert (Zc : z = c * grid (z - 1))
      by (unfold c; rewrite <- Z.mul_assoc, <- D; exact E).
    pose proof (half_even_bounds (z - 1) (grid (z - 1)) Gp') as [_ Hu'].
    assert ((z - 1) / grid (z - 1) < c)
      by (apply Z.div_lt_upper_bound; lia).
    nia.
Qed.

(** Minutes and seconds add up exactly as long as the sum is at most
    [2 ^ 53]. *)
Lemma total_small mins secs :
  0 <= mins -> 0 <= secs -> mins * 60 + secs <= 2 ^ 53 ->
  SettingsModal.seconds_of mins secs = mins * 60 + secs.
Proof.
  intros M S B. pose proof INF_pos as I.
  unfold SettingsModal.seconds_of, js_add, js_mul60.
  rewrite (roundZ_exact (mins * 60)) by lia.
  replace (INF <=? mins * 60) with false by (symmetry; apply Z.leb_gt; lia).
  replace (mins * 60 <=? - INF) with false
    by (symmetry; apply Z.leb_gt; lia).
  replace (INF <=? secs) with false by (symmetry; apply Z.leb_gt; lia).
  replace (secs <=? - INF) with false by (symmetry; apply Z.leb_gt; lia).
  now rewrite roundZ_exact by lia.
Qed.
Lemma Mode_eqb_eq k1 k2 : Mode_eqb k1 k2 = true <-> k1 = k2.
Proof. destruct k1, k2; simpl; split; congruence. Qed.

Lemma same_deps_timer_eq o d : same_deps_timer o d = true <-> o = Some d.
Proof.
  destruct o as [[[b z] c]|], d as [[b' z'] c']; simpl; [|split; discriminate].
  rewrite !andb_true_iff, Z.eqb_eq, !Bool.eqb_true_iff.
  split; [intros [[-> ->] ->]; reflexivity | intros [= -> -> ->]; auto].
Qed.

Lemma same_deps_reset_eq o d : same_deps_reset o d = true <-> o = Some d.
Proof.
  destruct o as [[k i]|], d as [k' i']; simpl; [|split; discriminate].
  rewrite andb_true_iff, Mode_eqb_eq, Nat.eqb_eq.
  split; [intros [-> ->]; reflexivity | intros [= -> ->]; auto].
Qed.

Lemma same_deps_timer_refl d : same_deps_timer (Some d) d = true.
Proof. now apply same_deps_timer_eq. Qed.

Lemma same_deps_reset_refl d : same_deps_reset (Some d) d = true.
Proof. now apply same_deps_reset_eq. Qed.

Lemma quiescent_iff a :
  quiescent a = true <->
  deps_timer a = Some (deps_timer_of a) /\
  deps_reset a = Some (deps_reset_of a).
Proof.
  unfold quiescent.
  now rewrite andb_true_iff, same_deps_timer_eq, same_deps_reset_eq.
Qed.

(** Case analysis on the tests of one commit. *)
Ltac split_tests :=
  repeat match goal with
         | |- context [if ?b then _ else _] => destruct b eqn:?
         | |- context [match ?x with Some _ => _ | None => _ end] =>
             destruct x eqn:?
         end.

(** ** One commit *)

Section OneCommit.
Variable a : App.

Lemma flush_frame :
  mode (flushEffects a) = mode a /\
  settings (flushEffects a) = settings a /\
  soundEnabled (flushEffects a) = soundEnabled a /\
  modal (flushEffects a) = modal a /\
  audio (flushEffects a) = audio a /\
  nextObj (flushEffects a) = nextObj a /\
  lingering (flushEffects a) = lingering a.
Proof.
  unfold flushEffects, timerEffect, resetEffect, clearTimer.
  split_tests; cbn; auto 10.
Qed.

Lemma flush_deps :
  deps_timer (flushEffects a) = Some (deps_timer_of a) /\
  deps_reset (flushEffects a) = Some (deps_reset_of a).
Proof.
  unfold flushEffects.
  destruct (same_deps_timer _ _) eqn:E1, (same_deps_reset _ _) eqn:E2;
    try apply same_deps_timer_eq in E1; try apply same_deps_reset_eq in E2;
    cbn; auto;
    unfold timerEffect, clearTimer; split_tests; cbn; auto.
Qed.

Lemma flush_timeLeft :
  timeLeft (flushEffects a) = if resets a then duration a else timeLeft a.
Proof.
  unfold resets, flushEffects, timerEffect, resetEffect, clearTimer.
  destruct (same_deps_reset _ _); cbn; [|reflexivity].
  split_tests; reflexivity.
Qed.

Lemma flush_isActive :
  isActive (flushEffects a) =
  if resets a then false else if completes a then false else isActive a.
Proof.
  unfold resets, completes, flushEffects, timerEffect, resetEffect,
    clearTimer.
  destruct (same_deps_reset _ _); cbn; [|reflexivity].
  destruct (same_deps_timer _ _); cbn; [reflexivity|].
  destruct (isActive a) eqn:A; cbn.
  - destruct (0 <? timeLeft a) eqn:E1, (timeLeft a =? 0) eqn:E2; cbn;
      try (apply Z.ltb_lt in E1; apply Z.eqb_eq in E2; lia);
      split_tests; cbn; congruence.
  - split_tests; cbn; congruence.
Qed.

Lemma flush_log :
  log (flushEffects a) =
  if completes a
  then log a ++ NotifyCalled
                :: playNotificationSound (soundEnabled a) (audio a)
  else log a.
Proof.
  unfold completes, flushEffects, timerEffect, resetEffect, clearTimer.
  destruct (same_deps_timer _ _); cbn;
    [destruct (same_deps_reset _ _); reflexivity|].
  destruct (isActive a) eqn:A; cbn.
  - destruct (0 <? timeLeft a) eqn:E1, (timeLeft a =? 0) eqn:E2; cbn;
      try (apply Z.ltb_lt in E1; apply Z.eqb_eq in E2; lia);
      split_tests; cbn; reflexivity.
  - split_tests; cbn; reflexivity.
Qed.

Lemma cleanup_clears :
  timer_ok a = true ->
  intervals match deps_timer a with
            | Some _ => clearTimer a
            | None => a
            end = [].
Proof.
  unfold timer_ok, clearTimer.
  destruct (deps_timer a) as [[[[] z] c]|]; [destruct (0 <? z)| |];
    destruct (timerRef a) as [h|]; destruct (intervals a) as [|i [|i' l]];
    cbn; intros H; try discriminate; try reflexivity.
  apply Pos.eqb_eq in H. subst i. now rewrite Pos.eqb_refl.
Qed.

Lemma timerEffect_ok p :
  intervals p = [] ->
  timer_ok (set_deps_timer (Some (deps_timer_of a)) (timerEffect a p))
  = true.
Proof.
  intros E. unfold timer_ok, timerEffect, clearTimer, deps_timer_of.
  destruct (isActive a); cbn.
  - destruct (0 <? timeLeft a) eqn:P; cbn; rewrite ?P.
    + now rewrite E, Pos.eqb_refl.
    + destruct (timeLeft a =? 0); cbn; rewrite ?E; [|reflexivity].
      destruct (timerRef p); cbn; rewrite ?E; reflexivity.
  - now rewrite E.
Qed.

Lemma flush_timer_ok : timer_ok a = true -> timer_ok (flushEffects a) = true.
Proof.
  intros H. unfold flushEffects.
  assert (G : timer_ok
                (if same_deps_timer (deps_timer a) (deps_timer_of a)
                 then a
                 else set_deps_timer (Some (deps_timer_of a))
                        (timerEffect a
                           match deps_timer a with
                           | Some _ => clearTimer a
                           | None => a
                           end)) = true).
  { destruct (same_deps_timer _ _); [exact H|].
    apply timerEffect_ok, cleanup_clears, H. }
  destruct (same_deps_reset _ _); [exact G|].
  exact G.
Qed.

End OneCommit.

(** ** Coming to rest *)

Lemma deps_of_flush a :
  deps_reset_of (flushEffects a) = deps_reset_of a /\
  (resets a = false -> completes a = false ->
   deps_timer_of (flushEffects a) = deps_timer_of a).
Proof.
  destruct (flush_frame a) as (Hm & Hs & Hsnd & _).
  unfold deps_reset_of, deps_timer_of. rewrite Hm, Hs, Hsnd.
  split; [reflexivity|]. intros R C.
  now rewrite flush_isActive, flush_timeLeft, R, C.
Qed.

Lemma resets_after_flush a : resets (flushEffects a) = false.
Proof.
  unfold resets.
  destruct (flush_deps a) as [_ ->], (deps_of_flush a) as [-> _].
  now rewrite same_deps_reset_refl.
Qed.

Lemma flush_idle_rest a :
  resets a = false -> completes a = false ->
  quiescent (flushEffects a) = true.
Proof.
  intros R C. apply quiescent_iff.
  destruct (flush_deps a) as [-> ->], (deps_of_flush a) as [-> ->]; auto.
Qed.

Lemma quiescent_idle a :
  quiescent a = true -> resets a = false /\ completes a = false.
Proof.
  unfold quiescent, resets, completes. intros H.
  apply andb_true_iff in H as [-> ->]. auto.
Qed.

Lemma flush_quiescent a : quiescent a = true -> flushEffects a = a.
Proof.
  unfold quiescent, flushEffects. intros H.
  apply andb_true_iff in H as [-> ->]. reflexivity.
Qed.

(** A commit that leaves an effect due has stopped the countdown. *)
Lemma flush_restless a :
  quiescent (flushEffects a) = false -> isActive (flushEffects a) = false.
Proof.
  intros H. rewrite flush_isActive.
  destruct (resets a) eqn:R; [reflexivity|].
  destruct (completes a) eqn:C; [reflexivity|].
  now rewrite flush_idle_rest in H.
Qed.

Lemma completes_inactive a : isActive a = false -> completes a = false.
Proof.
  unfold completes. intros ->. now rewrite andb_false_r.
Qed.

(** The three ways [settle] ends: at once, after one commit, or after
    two, the second of which changes no hook. *)
Lemma settle_cases a :
  (quiescent a = true /\ settle a = a) \/
  (quiescent a = false /\ quiescent (flushEffects a) = true /\
   settle a = flushEffects a) \/
  (quiescent a = false /\
   resets (flushEffects a) = false /\ completes (flushEffects a) = false /\
   settle a = flushEffects (flushEffects a)).
Proof.
  unfold settle, settle_fuel.
  destruct (quiescent a) eqn:Q0; [left; auto|right].
  destruct (quiescent (flushEffects a)) eqn:Q1; [left; auto|right].
  pose proof (resets_after_flush a) as R.
  pose proof (completes_inactive _ (flush_restless _ Q1)) as C.
  now rewrite (flush_idle_rest _ R C).
Qed.

Theorem settle_quiescent a : quiescent (settle a) = true.
Proof.
  destruct (settle_cases a) as [[Q ->]|[(_ & Q & ->)|(_ & R & C & ->)]]; auto.
  now apply flush_idle_rest.
Qed.

(** More fuel changes nothing: two commits always suffice. *)
Theorem settle_fuel_enough n a : settle_fuel (3 + n) a = settle a.
Proof.
  unfold settle. cbn [Nat.add settle_fuel].
  destruct (quiescent a) eqn:Q0; [reflexivity|].
  destruct (quiescent (flushEffects a)) eqn:Q1; [reflexivity|].
  pose proof (resets_after_flush a) as R.
  pose proof (completes_inactive _ (flush_restless _ Q1)) as C.
  rewrite (flush_idle_rest _ R C). now destruct n.
Qed.

Lemma settle_fixed a : quiescent a = true -> settle a = a.
Proof. unfold settle, settle_fuel. now intros ->. Qed.

Lemma settle_frame a :
  mode (settle a) = mode a /\
  settings (settle a) = settings a /\
  soundEnabled (settle a) = soundEnabled a /\
  modal (settle a) = modal a /\
  audio (settle a) = audio a /\
  nextObj (settle a) = nextObj a /\
  lingering (settle a) = lingering a.
Proof.
  destruct (settle_cases a) as [[Q ->]|[(_ & Q & ->)|(_ & R & C & ->)]];
    auto 10; [apply flush_frame|].
  destruct (flush_frame (flushEffects a))
    as (-> & -> & -> & -> & -> & -> & ->).
  apply flush_frame.
Qed.

Lemma settle_duration a : duration (settle a) = duration a.
Proof.
  unfold duration. now destruct (settle_frame a) as (-> & -> & _).
Qed.

Lemma settle_timeLeft a :
  timeLeft (settle a) = if resets a then duration a else timeLeft a.
Proof.
  destruct (settle_cases a) as [[Q ->]|[(_ & Q & ->)|(_ & R & C & ->)]].
  - now destruct (quiescent_idle _ Q) as [-> _].
  - apply flush_timeLeft.
  - rewrite flush_timeLeft, R. apply flush_timeLeft.
Qed.

Lemma settle_isActive a :
  isActive (settle a) =
  if resets a then false else if completes a then false else isActive a.
Proof.
  destruct (settle_cases a) as [[Q ->]|[(_ & Q & ->)|(_ & R & C & ->)]].
  - now destruct (quiescent_idle _ Q) as [-> ->].
  - apply flush_isActive.
  - rewrite flush_isActive, R, C. apply flush_isActive.
Qed.

Lemma settle_log a :
  log (settle a) =
  if completes a
  then log a ++ NotifyCalled
                :: playNotificationSound (soundEnabled a) (audio a)
  else log a.
Proof.
  destruct (settle_cases a) as [[Q ->]|[(_ & Q & ->)|(_ & R & C & ->)]].
  - now destruct (quiescent_idle _ Q) as [_ ->].
  - apply flush_log.
  - rewrite flush_log, C. apply flush_log.
Qed.

Lemma settle_timer_ok a : timer_ok a = true -> timer_ok (settle a) = true.
Proof.
  intros H.
  destruct (settle_cases a) as [[Q ->]|[(_ & Q & ->)|(_ & R & C & ->)]];
    auto using flush_timer_ok.
Qed.

(** ** The invariant *)

Lemma settle_Inv p : Pre p -> Inv (settle p).
Proof.
  intros [T B R S F M Li Dt Ds].
  pose proof (settle_frame p) as (Hm & Hs & _ & Hmo & _ & Hno & Hli).
  constructor.
  - apply settle_quiescent.
  - now apply settle_timer_ok.
  - rewrite settle_timeLeft. destruct (resets p).
    + specialize (S (mode p)). unfold duration. lia.
    + now apply B.
  - rewrite settle_timeLeft, settle_duration. destruct (resets p).
    + lia.
    + now apply B.
  - rewrite settle_isActive, settle_timeLeft.
    destruct (resets p) eqn:Er; [discriminate|].
    destruct (completes p) eqn:Ec; [discriminate|]. intros A.
    unfold completes in Ec. rewrite A in Ec.
    destruct (same_deps_timer _ _) eqn:Ed; [now apply R|].
    cbn in Ec. apply Z.eqb_neq in Ec. specialize (B eq_refl). lia.
  - now rewrite Hs.
  - now rewrite Hs, Hno.
  - now rewrite Hmo.
  - now rewrite Hli.
  - rewrite settle_timeLeft. destruct (resets p); [apply Ds|exact Dt].
  - now rewrite Hs.
Qed.

Lemma Inv_deps a :
  Inv a ->
  deps_timer a = Some (deps_timer_of a) /\
  deps_reset a = Some (deps_reset_of a).
Proof. intros I. apply quiescent_iff, I. Qed.

(** At rest an interval is live exactly while the countdown runs. *)
Lemma Inv_intervals a :
  Inv a ->
  if isActive a
  then exists h, timerRef a = Some h /\ intervals a = [h]
  else intervals a = [].
Proof.
  intros I. pose proof (inv_timer a I) as T.
  destruct (Inv_deps a I) as [D _]. unfold timer_ok in T.
  rewrite D in T. unfold deps_timer_of in T.
  destruct (isActive a) eqn:A.
  - pose proof (inv_running a I A) as P. apply Z.ltb_lt in P.
    rewrite P in T.
    destruct (timerRef a) as [h|], (intervals a) as [|i [|i' l]];
      try discriminate.
    apply Pos.eqb_eq in T. subst. eauto.
  - now destruct (intervals a).
Qed.

Lemma nearest64_nonneg n d :
  0 <= n -> 0 < d -> 0 <= fst (nearest64 n d).
Proof.
  intros N D. unfold nearest64. destruct (n =? 0); [cbn; lia|].
  cbn [fst]. set (e := Z.max (log2_ratio n d - 52) (-1074)).
  destruct (Z.leb_spec 0 e) as [P|P].
  - assert (Q : 0 < d * 2 ^ e)
      by (apply Z.mul_pos_pos; [lia|apply Z.pow_pos_nonneg; lia]).
    pose proof (half_even_bounds n _ Q) as [B _].
    pose proof (Z.div_pos n _ N Q). lia.
  - pose proof (half_even_bounds (n * 2 ^ (- e)) d D) as [B _].
    assert (H : 0 <= n * 2 ^ (- e))
      by (apply Z.mul_nonneg_nonneg; [lia|apply Z.pow_nonneg; lia]).
    pose proof (Z.div_pos _ d H D). lia.
Qed.

Lemma js_floor_div_nonneg x d : 0 <= x -> 0 < d -> 0 <= js_floor_div x d.
Proof.
  intros X D. unfold js_floor_div.
  replace (x <? 0) with false by (symmetry; apply Z.ltb_ge; lia).
  pose proof (nearest64_nonneg x d X D) as N.
  destruct (nearest64 x d) as [me e]. cbn in *.
  destruct (Z.leb_spec 0 e).
  - apply Z.mul_nonneg_nonneg; [lia|apply Z.pow_nonneg; lia].
  - apply Z.div_pos; [lia|apply Z.pow_pos_nonneg; lia].
Qed.

Lemma entry_of_ok x : 0 <= x -> entry_ok (SettingsModal.entry_of x).
Proof.
  intros H. unfold SettingsModal.entry_of.
  destruct (is_inf x); split; cbn; auto.
  - apply js_floor_div_nonneg; lia.
  - apply Z.rem_nonneg; lia.
Qed.

Lemma initial_ok st :
  (forall k, 1 <= at_mode st k) -> local_ok (SettingsModal.initial st).
Proof.
  intros H k.
  pose proof (H pomodoro). pose proof (H shortBreak).
  pose proof (H longBreak). cbn in *.
  destruct k; cbn; apply entry_of_ok; lia.
Qed.

Lemma set_row_ok l k e :
  local_ok l -> entry_ok e -> local_ok (SettingsModal.set_row l k e).
Proof.
  intros L E k'.
  pose proof (L pomodoro). pose proof (L shortBreak).
  pose proof (L longBreak).
  destruct k, k'; cbn in *; assumption.
Qed.

Lemma set_field_ok e f v :
  entry_ok e -> field_ok v -> entry_ok (SettingsModal.set_field e f v).
Proof. intros [Hm Hs] V. destruct f; split; cbn; assumption. Qed.

Lemma handleChange_ok l k f value :
  local_ok l -> local_ok (SettingsModal.handleChange l k f value).
Proof.
  intros L. unfold SettingsModal.handleChange.
  destruct (parseInt value) as [num|].
  - destruct (0 <=? num) eqn:E.
    + apply Z.leb_le in E. now apply set_row_ok, set_field_ok.
    + destruct (isEmptyString value); [|assumption].
      apply set_row_ok, set_field_ok; cbn; auto.
  - destruct (isEmptyString value); [|assumption].
    apply set_row_ok, set_field_ok; cbn; auto.
Qed.

Lemma or_zero_nonneg f : field_ok f -> 0 <= or_zero f.
Proof. destruct f; cbn; lia. Qed.

(** The sum of a row whose fields are not negative. *)
Lemma total_cases e :
  entry_ok e ->
  SettingsModal.total e = INF \/
  SettingsModal.total e
  = roundZ (js_mul60 (or_zero (SettingsModal.m e))
            + or_zero (SettingsModal.s e)).
Proof.
  intros [Hm Hs]. apply or_zero_nonneg in Hm, Hs.
  unfold SettingsModal.total, SettingsModal.seconds_of, js_add.
  pose proof (roundZ_nonneg (or_zero (SettingsModal.m e) * 60) ltac:(lia))
    as M.
  fold (js_mul60 (or_zero (SettingsModal.m e))) in M.
  pose proof INF_pos as I.
  destruct (INF <=? js_mul60 _); [|].
  - replace (or_zero (SettingsModal.s e) <=? - INF) with false
      by (symmetry; apply Z.leb_gt; lia).
    now left.
  - replace (js_mul60 (or_zero (SettingsModal.m e)) <=? - INF) with false
      by (symmetry; apply Z.leb_gt; lia).
    destruct (INF <=? or_zero _); [now left|].
    replace (or_zero (SettingsModal.s e) <=? - INF) with false
      by (symmetry; apply Z.leb_gt; lia).
    now right.
Qed.

Lemma is_double_INF : is_double INF.
Proof. exists INF. vm_compute. reflexivity. Qed.

Lemma total_nonneg e : entry_ok e -> 0 <= SettingsModal.total e.
Proof.
  intros E. pose proof INF_pos.
  destruct (total_cases e E) as [->| ->]; [lia|].
  destruct E as [Hm Hs]. apply or_zero_nonneg in Hm, Hs.
  apply roundZ_nonneg.
  pose proof (roundZ_nonneg (or_zero (SettingsModal.m e) * 60) ltac:(lia)).
  unfold js_mul60. lia.
Qed.

Lemma total_double e : entry_ok e -> is_double (SettingsModal.total e).
Proof.
  intros E. destruct (total_cases e E) as [->| ->];
    [apply is_double_INF|apply is_double_roundZ].
Qed.

Lemma finalSeconds_pos e fallback :
  entry_ok e -> 1 <= fallback -> 1 <= SettingsModal.finalSeconds e fallback.
Proof.
  intros E F. pose proof (total_nonneg e E).
  unfold SettingsModal.finalSeconds, or_else.
  destruct (SettingsModal.total e =? 0) eqn:Z0; [assumption|].
  apply Z.eqb_neq in Z0. lia.
Qed.

Lemma finalSeconds_double e fallback :
  entry_ok e -> is_double fallback ->
  is_double (SettingsModal.finalSeconds e fallback).
Proof.
  intros E F. unfold SettingsModal.finalSeconds, or_else.
  destruct (SettingsModal.total e =? 0); [exact F|now apply total_double].
Qed.

Lemma finalSettings_pos l k :
  local_ok l -> 1 <= at_mode (SettingsModal.finalSettings l) k.
Proof.
  intros L.
  pose proof (L pomodoro). pose proof (L shortBreak).
  pose proof (L longBreak).
  destruct k; cbn in *; apply finalSeconds_pos; auto; lia.
Qed.

Lemma finalSettings_double l k :
  local_ok l -> is_double (at_mode (SettingsModal.finalSettings l) k).
Proof.
  intros L.
  pose proof (L pomodoro). pose proof (L shortBreak).
  pose proof (L longBreak).
  destruct k; cbn in *; apply finalSeconds_double; auto;
    apply is_double_small; lia.
Qed.

Lemma mounted_ok a l :
  (forall l', modal a = Some l' -> local_ok l') ->
  (forall l', lingering a = Some l' -> local_ok l') ->
  mounted a = Some l -> local_ok l.
Proof.
  unfold mounted. intros M L. destruct (modal a); intros E; auto.
Qed.

(** Unfold a handler and split on the state it looks at. *)
Ltac open_handler a :=
  cbn; unfold openSettings, closeSettings, exitDone, changeField,
    handleSave, mounted, saveFresh, handleSaveSettings, closeSettings,
    intervalFires; cbn;
  try match goal with
      | |- context [match modal a with Some _ => _ | None => _ end] =>
          destruct (modal a) eqn:Em
      end;
  try match goal with
      | |- context [match lingering a with Some _ => _ | None => _ end] =>
          destruct (lingering a) eqn:El
      end;
  try match goal with
      | |- context [match intervals a with [] => _ | _ :: _ => _ end] =>
          destruct (intervals a) eqn:Ei
      end;
  cbn.

Lemma handle_timer_ok c a : timer_ok (handle c a) = timer_ok a.
Proof. destruct c; open_handler a; reflexivity. Qed.

Lemma handle_Pre c a : Inv a -> Pre (handle c a).
Proof.
  intros I. destruct (Inv_deps a I) as [Dt Dr].
  pose proof I as [_ T Lo Hi Ru Se Fr Mo Li Dd Ds].
  constructor; [rewrite handle_timer_ok; assumption|..].
  - (* bounds *)
    unfold resets.
    destruct c; open_handler a; auto.
    + (* SelectMode *)
      rewrite Dr. unfold deps_reset_of. cbn. intros E.
      apply negb_false_iff, andb_true_iff in E as [E _].
      apply Mode_eqb_eq in E. unfold duration. cbn. rewrite <- E. auto.
    + (* ResetTimer *)
      intros _. specialize (Se (mode a)). unfold duration in *. cbn. lia.
    + (* Save, the form shown *)
      rewrite Dr. unfold deps_reset_of. cbn. intros E.
      apply negb_false_iff, andb_true_iff in E as [_ E].
      apply Nat.eqb_eq in E. lia.
    + (* Save, the form on its way out *)
      rewrite Dr. unfold deps_reset_of. cbn. intros E.
      apply negb_false_iff, andb_true_iff in E as [_ E].
      apply Nat.eqb_eq in E. lia.
    + (* Tick *)
      intros _. pose proof (Inv_intervals a I) as L.
      destruct (isActive a) eqn:A; [|congruence].
      specialize (Ru eq_refl).
      pose proof (sub1_bounds (timeLeft a) Dd ltac:(lia)).
      unfold duration in *. cbn. lia.
  - (* running *)
    destruct c; open_handler a; auto;
      rewrite Dt; unfold deps_timer_of; cbn;
      rewrite ?andb_true_iff, ?Z.eqb_eq, ?Bool.eqb_true_iff.
    + destruct (isActive a); intros [[? _] _]; discriminate.
    + intros _ ?; discriminate.
    + intros [[_ E] _] A. rewrite <- E. auto.
  - (* settings *)
    destruct c; open_handler a; auto;
      intros k0; apply finalSettings_pos; eauto.
  - (* fresh *)
    destruct c; open_handler a; auto.
  - (* modal *)
    destruct c; open_handler a; auto; try discriminate;
      try (intros ? [= <-]);
      try (rewrite ?Em, ?El; assumption); eauto.
    + now apply initial_ok.
    + apply handleChange_ok. eauto.
  - (* lingering *)
    destruct c; open_handler a; auto; try discriminate;
      try (intros ? [= <-]);
      try (rewrite ?Em, ?El; assumption); eauto.
    apply handleChange_ok. eauto.
  - (* the time left is a double *)
    destruct c; open_handler a; auto.
    + apply Ds.
    + apply is_double_roundZ.
  - (* the settings are doubles *)
    destruct c; open_handler a; auto;
      intros k0; apply finalSettings_double; eauto.
Qed.

Theorem step_Inv c a : Inv a -> Inv (step c a).
Proof. intros I. apply settle_Inv, handle_Pre, I. Qed.

Lemma mounting_Pre : Pre mounting.
Proof.
  constructor; cbn; try reflexivity; try lia; try discriminate.
  - intros []; cbn; lia.
  - apply is_double_small. lia.
  - intros []; cbn; apply is_double_small; lia.
Qed.

Theorem initial_Inv : Inv initial.
Proof. apply settle_Inv, mounting_Pre. Qed.

Lemma run_Inv cs : forall a, Inv a -> Inv (run cs a).
Proof.
  induction cs as [|c cs IH]; intros a I; cbn; [assumption|].
  apply IH, step_Inv, I.
Qed.

Lemma reachable_run cs : reachable (run cs initial).
Proof. now exists cs. Qed.

Lemma reachable_step c a : reachable a -> reachable (step c a).
Proof.
  intros [cs ->]. exists (cs ++ [c]). unfold run.
  now rewrite fold_left_app.
Qed.

Theorem reachable_Inv a : reachable a -> Inv a.
Proof. intros [cs ->]. apply run_Inv, initial_Inv. Qed.

(** ** The trace *)

Lemma play_no_notify snd h :
  filter is_notify (playNotificationSound snd h) = [].
Proof.
  unfold playNotificationSound.
  destruct snd; cbn; [|reflexivity].
  destruct h as [|k]; [reflexivity|].
  destruct k as [|[|[|[|k]]]]; reflexivity.
Qed.

Lemma play_all_audio snd h :
  filter (fun e => negb (is_notify e)) (playNotificationSound snd h)
  = playNotificationSound snd h.
Proof.
  unfold playNotificationSound.
  destruct snd; cbn; [|reflexivity].
  destruct h as [|k]; [reflexivity|].
  destruct k as [|[|[|[|k]]]]; reflexivity.
Qed.

Lemma settle_completions p :
  completions (settle p) =
  if completes p then S (completions p) else completions p.
Proof.
  unfold completions. rewrite settle_log.
  destruct (completes p); [|reflexivity].
  rewrite filter_app, length_app. cbn.
  rewrite play_no_notify. cbn. lia.
Qed.

Lemma settle_audioEvents p :
  audioEvents (settle p) =
  if completes p
  then audioEvents p ++ playNotificationSound (soundEnabled p) (audio p)
  else audioEvents p.
Proof.
  unfold audioEvents. rewrite settle_log.
  destruct (completes p); [|reflexivity].
  rewrite filter_app. cbn. now rewrite play_all_audio.
Qed.

(** At rest, a stopped countdown has no live interval. *)
Lemma stopped_no_interval b :
  quiescent b = true -> timer_ok b = true -> isActive b = false ->
  intervals b = [].
Proof.
  intros Q T A. apply quiescent_iff in Q as [D _].
  unfold timer_ok in T. rewrite D in T. unfold deps_timer_of in T.
  rewrite A in T. now destruct (intervals b).
Qed.

Lemma step_no_interval c a :
  Inv a -> isActive (step c a) = false -> intervals (step c a) = [].
Proof.
  intros I A. apply stopped_no_interval; auto.
  - apply settle_quiescent.
  - apply settle_timer_ok. rewrite handle_timer_ok. apply I.
Qed.

(** A tick on a running countdown, before the component settles. *)
Lemma tick_fires a :
  Inv a -> isActive a = true ->
  intervalFires a = set_timeLeft (js_sub1 (timeLeft a)) a.
Proof.
  intros I A. pose proof (Inv_intervals a I) as L. rewrite A in L.
  destruct L as (h & _ & E). unfold intervalFires. now rewrite E.
Qed.

Lemma tick_stopped a : Inv a -> isActive a = false -> step Tick a = a.
Proof.
  intros I A. pose proof (Inv_intervals a I) as L. rewrite A in L.
  unfold step. cbn. unfold intervalFires. rewrite L.
  apply settle_fixed, I.
Qed.

Lemma ticks_stopped n a :
  Inv a -> isActive a = false -> Nat.iter n (step Tick) a = a.
Proof.
  intros I A. induction n as [|n IH]; [reflexivity|].
  rewrite Nat.iter_succ, IH. now apply tick_stopped.
Qed.

Lemma iter_Inv c n a : Inv a -> Inv (Nat.iter n (step c) a).
Proof.
  intros I. induction n as [|n IH]; [assumption|].
  rewrite Nat.iter_succ. now apply step_Inv.
Qed.

Lemma tick_resets a :
  Inv a -> resets (set_timeLeft (js_sub1 (timeLeft a)) a) = false.
Proof.
  intros I. destruct (Inv_deps a I) as [_ D].
  unfold resets. cbn. rewrite D.
  change (deps_reset_of (set_timeLeft (js_sub1 (timeLeft a)) a))
    with (deps_reset_of a).
  now rewrite same_deps_reset_refl.
Qed.

Lemma sub1_zero z : js_sub1 z = 0 <-> z = 1.
Proof. unfold js_sub1. rewrite roundZ_zero. lia. Qed.

Lemma tick_completes a :
  Inv a -> isActive a = true ->
  completes (set_timeLeft (js_sub1 (timeLeft a)) a) = (timeLeft a =? 1).
Proof.
  intros I A. destruct (Inv_deps a I) as [D _].
  unfold completes. cbn. rewrite D, A. unfold deps_timer_of. cbn.
  rewrite A. cbn.
  destruct (Z.eqb_spec (timeLeft a) 1) as [E|N].
  - rewrite E. reflexivity.
  - replace (js_sub1 (timeLeft a) =? 0) with false
      by (symmetry; apply Z.eqb_neq; now rewrite sub1_zero).
    now rewrite andb_false_r.
Qed.

(** * Properties of the session engine *)

Lemma tick_running a :
  Inv a -> isActive a = true ->
  timeLeft (step Tick a) = js_sub1 (timeLeft a) /\
  isActive (step Tick a) = negb (timeLeft a =? 1) /\
  completions (step Tick a) =
  if timeLeft a =? 1 then S (completions a) else completions a.
Proof.
  intros I A. unfold step. cbn [handle]. rewrite (tick_fires a I A).
  rewrite settle_timeLeft, settle_isActive, settle_completions.
  rewrite tick_resets, tick_completes by assumption.
  change (isActive (set_timeLeft (js_sub1 (timeLeft a)) a))
    with (isActive a).
  change (timeLeft (set_timeLeft (js_sub1 (timeLeft a)) a))
    with (js_sub1 (timeLeft a)).
  change (completions (set_timeLeft (js_sub1 (timeLeft a)) a))
    with (completions a).
  rewrite A. now destruct (timeLeft a =? 1).
Qed.

Lemma sub1_exact z : 1 <= z <= 2 ^ 53 -> js_sub1 z = z - 1.
Proof. intros H. unfold js_sub1. apply roundZ_exact. lia. Qed.

(** C1, counterexample to the decrement by exactly one: a focus session
    of [2 ^ 53 + 2] seconds, typed into the form and started, is at
    [2 ^ 53] after its first tick, two seconds less; and a session whose
    minutes were typed as a one with 308 zeros is infinite and stays so
    under a tick. *)
Lemma C1_tick_rounding_counterexample :
  isActive beyond_exact = true /\
  timeLeft beyond_exact = 2 ^ 53 + 2 /\
  timeLeft (step Tick beyond_exact) = 2 ^ 53 /\
  timeLeft (step Tick beyond_exact) <> timeLeft beyond_exact - 1 /\
  isActive endless_running = true /\
  timeLeft endless_running = INF /\
  timeLeft (step Tick endless_running) <> timeLeft endless_running - 1.
Proof. vm_compute. repeat split; try reflexivity; discriminate. Qed.

(** C1, amended: in every reachable state whose countdown is running,
    the time left is above zero; if it is at most [2 ^ 53] a tick takes
    exactly one second off it, and above that a tick leaves the double
    nearest to one second less, never more than before; however many
    ticks follow, the time left never goes below zero; a tick above one
    second leaves the countdown running and signals nothing; the tick
    from one second to zero stops the countdown and calls the completion
    signal exactly once, and every later tick changes nothing, so the
    signal is not repeated. *)
Theorem C1_tick_countdown a :
  reachable a -> isActive a = true ->
  0 < timeLeft a /\
  (timeLeft a <= 2 ^ 53 -> timeLeft (step Tick a) = timeLeft a - 1) /\
  (timeLeft (step Tick a) = js_sub1 (timeLeft a) /\
   timeLeft (step Tick a) <= timeLeft a) /\
  (forall n, 0 <= timeLeft (Nat.iter n (step Tick) a)) /\
  (1 < timeLeft a ->
   isActive (step Tick a) = true /\
   completions (step Tick a) = completions a) /\
  (timeLeft a = 1 ->
   timeLeft (step Tick a) = 0 /\
   isActive (step Tick a) = false /\
   completions (step Tick a) = S (completions a) /\
   forall n, Nat.iter n (step Tick) (step Tick a) = step Tick a).
Proof.
  intros R A. pose proof (reachable_Inv a R) as I.
  pose proof (inv_running a I A) as P.
  destruct (tick_running a I A) as (TL & AC & CO).
  split; [assumption|]. split; [|split; [|split; [|split]]].
  - intros B. rewrite TL. apply sub1_exact. lia.
  - split; [exact TL|]. rewrite TL.
    apply (sub1_bounds (timeLeft a) (inv_double a I)). lia.
  - intros n. apply inv_low, iter_Inv, I.
  - intros H. rewrite AC, CO.
    replace (timeLeft a =? 1) with false by (symmetry; apply Z.eqb_neq; lia).
    auto.
  - intros H. rewrite TL, AC, CO, H.
    do 3 (split; [reflexivity|]).
    intros n. apply ticks_stopped; [apply step_Inv, I|].
    now rewrite AC, H.
Qed.

Lemma C1_tick_countdown_witness :
  timeLeft last_second = 1 /\
  timeLeft (step Tick last_second) = 0 /\
  completions (step Tick last_second) = 1%nat /\
  completions (Nat.iter 5 (step Tick) (step Tick last_second)) = 1%nat.
Proof.
  pose proof (reachable_run (one_second ++ [ToggleTimer])) as R.
  assert (A : isActive last_second = true) by (vm_compute; reflexivity).
  destruct (C1_tick_countdown last_second R A) as (_ & _ & _ & _ & _ & Z).
  assert (E : timeLeft last_second = 1) by (vm_compute; reflexivity).
  destruct (Z E) as (Z0 & _ & C & F).
  split; [exact E|]. split; [exact Z0|]. split; [exact C|].
  rewrite F. exact C.
Defined.

(** C2: in every state reachable from the initial one by selecting a
    mode, starting or pausing, resetting, ticking and saving settings
    (and by the other commands of the component), the time left lies
    between zero and the duration configured for the active mode. *)
Theorem C2_time_within_duration a :
  reachable a -> 0 <= timeLeft a <= duration a.
Proof.
  intros R. pose proof (reachable_Inv a R) as I.
  split; [apply inv_low | apply inv_high]; exact I.
Qed.

Lemma C2_time_within_duration_witness :
  0 <= timeLeft ten_ticks <= duration ten_ticks.
Proof.
  apply (C2_time_within_duration ten_ticks).
  exact (reachable_run (ToggleTimer :: repeat Tick 10)).
Defined.

(** C10: starting a countdown that is at zero is accepted, the handler
    sets the running flag; the component then comes to rest with the flag
    cleared again and the completion signal called once, with no tick
    delivered and no interval left live.  No reachable state is running
    at zero. *)
Theorem C10_start_at_zero a :
  reachable a ->
  (timeLeft a = 0 ->
   isActive (toggleTimer a) = true /\
   isActive (step ToggleTimer a) = false /\
   timeLeft (step ToggleTimer a) = 0 /\
   completions (step ToggleTimer a) = S (completions a) /\
   intervals (step ToggleTimer a) = []) /\
  ~ (isActive a = true /\ timeLeft a = 0).
Proof.
  intros R. pose proof (reachable_Inv a R) as I.
  assert (N : ~ (isActive a = true /\ timeLeft a = 0)).
  { intros [A Z]. pose proof (inv_running a I A). lia. }
  split; [|exact N]. intros Z.
  assert (A : isActive a = false).
  { destruct (isActive a); [exfalso; apply N; auto|reflexivity]. }
  destruct (Inv_deps a I) as [Dt Dr].
  assert (Er : resets (toggleTimer a) = false).
  { unfold resets, toggleTimer. cbn. rewrite Dr.
    change (deps_reset_of (set_isActive (negb (isActive a)) a))
      with (deps_reset_of a).
    now rewrite same_deps_reset_refl. }
  assert (Ec : completes (toggleTimer a) = true).
  { unfold completes, toggleTimer. cbn. rewrite Dt, A, Z.
    unfold deps_timer_of. cbn. now rewrite A. }
  assert (B : isActive (step ToggleTimer a) = false).
  { unfold step. cbn [handle]. now rewrite settle_isActive, Er, Ec. }
  split; [unfold toggleTimer; cbn; now rewrite A|].
  split; [exact B|]. split; [|split].
  - unfold step. cbn [handle]. now rewrite settle_timeLeft, Er.
  - unfold step. cbn [handle]. now rewrite settle_completions, Ec.
  - now apply step_no_interval.
Qed.

Lemma C10_start_at_zero_witness :
  isActive (step ToggleTimer finished) = false /\
  completions (step ToggleTimer finished) = 2%nat.
Proof.
  pose proof (reachable_step Tick _
                (reachable_run (one_second ++ [ToggleTimer]))) as R.
  destruct (C10_start_at_zero finished R) as [H _].
  assert (Z : timeLeft finished = 0) by (vm_compute; reflexivity).
  destruct (H Z) as (_ & B & _ & C & _).
  split; [exact B | exact C].
Defined.

Lemma resetTimer_fixed b :
  timeLeft b = duration b -> isActive b = false -> resetTimer b = b.
Proof.
  destruct b. unfold resetTimer, duration. cbn.
  intros -> ->. reflexivity.
Qed.

(** A reset of a session that is already as a reset leaves it. *)
Lemma reset_keeps_session b :
  timeLeft b = duration b -> isActive b = false ->
  session (step ResetTimer b) = session b.
Proof.
  intros T A. unfold session, step. cbn [handle].
  destruct (settle_frame (resetTimer b)) as (-> & _).
  rewrite settle_timeLeft, settle_isActive.
  change (duration (resetTimer b)) with (duration b).
  change (timeLeft (resetTimer b)) with (duration b).
  change (isActive (resetTimer b)) with false.
  change (mode (resetTimer b)) with (mode b).
  rewrite T, A.
  now destruct (resets (resetTimer b)), (completes (resetTimer b)).
Qed.

(** What [saveFresh] leaves in the hooks and the bookkeeping. *)
Lemma saveFresh_fields cfg a :
  settings (saveFresh cfg a) = mkObj (nextObj a) cfg /\
  mode (saveFresh cfg a) = mode a /\
  deps_reset (saveFresh cfg a) = deps_reset a /\
  timer_ok (saveFresh cfg a) = timer_ok a /\
  modal (saveFresh cfg a) = None.
Proof.
  unfold saveFresh, handleSaveSettings, closeSettings. cbn.
  destruct (modal a) eqn:M; cbn; rewrite ?M; auto.
Qed.

(** Saving from a state at rest whose settings object is older than the
    next one to be allocated. *)
Lemma save_at_rest a cfg :
  quiescent a = true -> timer_ok a = true ->
  (obj_id (settings a) < nextObj a)%nat ->
  obj_val (settings (settle (saveFresh cfg a))) = cfg /\
  mode (settle (saveFresh cfg a)) = mode a /\
  timeLeft (settle (saveFresh cfg a)) = at_mode cfg (mode a) /\
  isActive (settle (saveFresh cfg a)) = false /\
  modal (settle (saveFresh cfg a)) = None /\
  intervals (settle (saveFresh cfg a)) = [].
Proof.
  intros Q T F. apply quiescent_iff in Q as [_ Dr].
  destruct (saveFresh_fields cfg a) as (Fs & Fm & Fd & Ft & Fo).
  set (p := saveFresh cfg a) in *.
  assert (Er : resets p = true).
  { unfold resets, deps_reset_of. rewrite Fd, Fs, Fm, Dr.
    unfold deps_reset_of. cbn.
    replace (Nat.eqb (obj_id (settings a)) (nextObj a)) with false
      by (symmetry; apply Nat.eqb_neq; lia).
    now rewrite andb_false_r. }
  pose proof (settle_frame p) as (Hm & Hs & _ & Hmo & _).
  assert (A : isActive (settle p) = false)
    by now rewrite settle_isActive, Er.
  split; [now rewrite Hs, Fs|]. split; [now rewrite Hm|].
  split; [rewrite settle_timeLeft, Er; unfold duration;
          now rewrite Fs, Fm|].
  split; [exact A|]. split; [now rewrite Hmo|].
  apply stopped_no_interval; [exact (settle_quiescent p)| |exact A].
  apply settle_timer_ok. now rewrite Ft.
Qed.

(** C6: from every reachable state, running or not, and for every new
    configuration, saving it replaces the whole configuration, keeps the
    active mode, and leaves the session as a reset would: the time left is
    the new duration of the active mode, the countdown is stopped with no
    interval live, and a reset right after changes nothing of the
    session. *)
Theorem C6_applyConfig_resets a cfg :
  reachable a ->
  obj_val (settings (applyConfig cfg a)) = cfg /\
  mode (applyConfig cfg a) = mode a /\
  timeLeft (applyConfig cfg a) = at_mode cfg (mode a) /\
  isActive (applyConfig cfg a) = false /\
  intervals (applyConfig cfg a) = [] /\
  session (step ResetTimer (applyConfig cfg a)) = session (applyConfig cfg a).
Proof.
  intros R. pose proof (reachable_Inv a R) as I.
  destruct (save_at_rest a cfg (inv_rest a I) (inv_timer a I)
              (inv_fresh a I)) as (S & M & T & A & _ & Iv).
  unfold applyConfig.
  split; [exact S|]. split; [exact M|]. split; [exact T|].
  split; [exact A|]. split; [exact Iv|].
  apply reset_keeps_session; [|exact A].
  unfold duration. now rewrite S, M, T.
Qed.

Lemma C6_applyConfig_resets_witness :
  isActive ten_ticks = true /\
  timeLeft ten_ticks = 1490 /\
  timeLeft (applyConfig (mkSettings 60 300 900) ten_ticks) = 60 /\
  isActive (applyConfig (mkSettings 60 300 900) ten_ticks) = false.
Proof.
  pose proof (reachable_run (ToggleTimer :: repeat Tick 10)) as R.
  destruct (C6_applyConfig_resets ten_ticks (mkSettings 60 300 900) R)
    as (_ & _ & T & A & _).
  split; [vm_compute; reflexivity|]. split; [vm_compute; reflexivity|].
  split; [exact T | exact A].
Defined.

(** C8: for every state whatsoever, a reset leaves the time left at the
    duration of the active mode, the countdown stopped and the mode as it
    was, and a second reset right after the first changes nothing at
    all. *)
Theorem C8_reset_idempotent a :
  step ResetTimer (step ResetTimer a) = step ResetTimer a /\
  timeLeft (step ResetTimer a) = duration a /\
  isActive (step ResetTimer a) = false /\
  mode (step ResetTimer a) = mode a.
Proof.
  assert (T : timeLeft (step ResetTimer a) = duration a).
  { unfold step. cbn [handle]. rewrite settle_timeLeft.
    now destruct (resets (resetTimer a)). }
  assert (A : isActive (step ResetTimer a) = false).
  { unfold step. cbn [handle]. rewrite settle_isActive.
    now destruct (resets (resetTimer a)), (completes (resetTimer a)). }
  assert (D : duration (step ResetTimer a) = duration a).
  { unfold step. cbn [handle]. now rewrite settle_duration. }
  assert (M : mode (step ResetTimer a) = mode a).
  { unfold step. cbn [handle].
    now destruct (settle_frame (resetTimer a)) as (-> & _). }
  split; [|auto].
  set (b := step ResetTimer a) in *.
  assert (E : resetTimer b = b).
  { apply resetTimer_fixed; [now rewrite D|exact A]. }
  unfold step at 1. cbn [handle]. rewrite E.
  apply settle_fixed. exact (settle_quiescent (handle ResetTimer a)).
Qed.

(** C7, counterexample to the statement for every mode: with the default
    focus session
    running and one tick in, selecting the focus mode again changes
    nothing, so the countdown still runs and the time left is 1499, not
    the configured 1500. *)
Lemma C7_same_mode_counterexample :
  mode counting = pomodoro /\
  duration counting = 1500 /\
  isActive (step (SelectMode pomodoro) counting) = true /\
  timeLeft (step (SelectMode pomodoro) counting) = 1499 /\
  ~ (mode (step (SelectMode pomodoro) counting) = pomodoro /\
     timeLeft (step (SelectMode pomodoro) counting)
     = duration (step (SelectMode pomodoro) counting) /\
     isActive (step (SelectMode pomodoro) counting) = false).
Proof.
  vm_compute. repeat split; try reflexivity.
  intros (_ & _ & H). discriminate H.
Qed.

(** C7, amended: from every reachable state, selecting a mode other
    than the active one makes it the active mode, sets the time left to
    that mode's configured duration and stops the countdown, leaving no
    interval live; selecting the mode that is already active leaves the
    whole state as it was. *)
Theorem C7_selectMode a k :
  reachable a ->
  (k <> mode a ->
   mode (step (SelectMode k) a) = k /\
   timeLeft (step (SelectMode k) a) = at_mode (obj_val (settings a)) k /\
   isActive (step (SelectMode k) a) = false /\
   intervals (step (SelectMode k) a) = []) /\
  (k = mode a -> step (SelectMode k) a = a).
Proof.
  intros R. pose proof (reachable_Inv a R) as I.
  destruct (Inv_deps a I) as [_ Dr]. split.
  - intros N.
    assert (Er : resets (setMode k a) = true).
    { unfold resets, setMode. cbn. rewrite Dr. unfold deps_reset_of. cbn.
      destruct (Mode_eqb (mode a) k) eqn:E; [|reflexivity].
      apply Mode_eqb_eq in E. congruence. }
    assert (A : isActive (step (SelectMode k) a) = false).
    { unfold step. cbn [handle]. now rewrite settle_isActive, Er. }
    split; [|split; [|split]].
    + unfold step. cbn [handle].
      now destruct (settle_frame (setMode k a)) as (-> & _).
    + unfold step. cbn [handle]. now rewrite settle_timeLeft, Er.
    + exact A.
    + now apply step_no_interval.
  - intros ->. unfold step. cbn [handle].
    assert (E : setMode (mode a) a = a) by now destruct a.
    rewrite E. apply settle_fixed, I.
Qed.

Lemma C7_selectMode_witness :
  mode (step (SelectMode shortBreak) counting) = shortBreak /\
  timeLeft (step (SelectMode shortBreak) counting) = 300 /\
  isActive (step (SelectMode shortBreak) counting) = false.
Proof.
  pose proof (reachable_run [ToggleTimer; Tick]) as R.
  destruct (C7_selectMode counting shortBreak R) as [H _].
  assert (N : shortBreak <> mode counting) by (vm_compute; discriminate).
  destruct (H N) as (M & T & A & _).
  split; [exact M|]. split; [exact T | exact A].
Defined.

(** C9: when the last tick of a reachable running countdown arrives,
    whatever the state of the host's audio subsystem, the session ends
    the same way: same mode, zero time left, countdown stopped, the
    completion signal called once.  With sound disabled the audio
    subsystem is not touched at all; with sound enabled and an audio
    subsystem that throws, the tones started before the failure are
    followed by one logged error and nothing else. *)
Theorem C9_completion_and_audio a h :
  reachable a -> isActive a = true -> timeLeft a = 1 ->
  session (step Tick (step (HostAudio h) a)) = (mode a, 0, false) /\
  completions (step Tick (step (HostAudio h) a)) = S (completions a) /\
  (soundEnabled a = false ->
   audioEvents (step Tick (step (HostAudio h) a)) = audioEvents a) /\
  (soundEnabled a = true ->
   forall k, h = AudioThrows k ->
   audioEvents (step Tick (step (HostAudio h) a)) =
   audioEvents a ++ firstn k tones ++ [ConsoleError "Audio playback failed"]).
Proof.
  intros R A T.
  set (b := step (HostAudio h) a).
  assert (Rb : reachable b) by now apply reachable_step.
  assert (Eb : b = set_audio h a).
  { unfold b, step. cbn [handle]. apply settle_fixed.
    exact (inv_rest a (reachable_Inv a R)). }
  clearbody b.
  pose proof (reachable_Inv b Rb) as I.
  assert (Ab : isActive b = true) by now rewrite Eb.
  assert (Tb : timeLeft b = 1) by now rewrite Eb.
  assert (Ec : completes (set_timeLeft (js_sub1 (timeLeft b)) b) = true).
  { rewrite tick_completes by assumption. now rewrite Tb. }
  assert (S1 : step Tick b = settle (set_timeLeft (js_sub1 (timeLeft b)) b)).
  { unfold step. cbn [handle]. now rewrite (tick_fires b I Ab). }
  split; [|split; [|split]].
  - unfold session. rewrite S1.
    destruct (settle_frame (set_timeLeft (js_sub1 (timeLeft b)) b)) as (-> & _).
    rewrite settle_timeLeft, settle_isActive, tick_resets, Ec by assumption.
    cbn. rewrite Tb. now rewrite Eb.
  - rewrite S1, settle_completions, Ec. now rewrite Eb.
  - intros Snd. rewrite S1, settle_audioEvents, Ec. cbn.
    rewrite Eb. cbn. rewrite Snd. cbn. apply app_nil_r.
  - intros Snd k ->. rewrite S1, settle_audioEvents, Ec. cbn.
    rewrite Eb. cbn. now rewrite Snd.
Qed.

Lemma C9_completion_and_audio_witness :
  session (step Tick (step (HostAudio (AudioThrows 0)) last_second))
  = (pomodoro, 0, false) /\
  audioEvents (step Tick (step (HostAudio (AudioThrows 0)) last_second))
  = [ConsoleError "Audio playback failed"].
Proof.
  pose proof (reachable_run (one_second ++ [ToggleTimer])) as R.
  assert (A : isActive last_second = true) by (vm_compute; reflexivity).
  assert (T : timeLeft last_second = 1) by (vm_compute; reflexivity).
  destruct (C9_completion_and_audio last_second (AudioThrows 0) R A T)
    as (S & _ & _ & E).
  split; [exact S|].
  assert (Snd : soundEnabled last_second = true) by (vm_compute; reflexivity).
  exact (E Snd 0%nat eq_refl).
Defined.

(** C3, counterexample to the clamping: [handleSave] does not clamp.  On a
    row holding minus five minutes and ten seconds its expression yields
    -290, not 10; and a user who types -5 and 10 into the focus row of
    the default form saves 1510, because the negative entry is dropped and
    the 25 minutes stay. *)
Lemma C3_negative_counterexample :
  SettingsModal.finalSeconds
    (SettingsModal.mkEntry (FNum (-5)) (FNum 10))
    (at_mode DEFAULT_SETTINGS pomodoro) = -290 /\
  SettingsModal.finalSeconds
    (SettingsModal.mkEntry (FNum (-5)) (FNum 10))
    (at_mode DEFAULT_SETTINGS pomodoro)
  <> Z.max 0 (-5) * 60 + Z.max 0 10 /\
  at_mode (obj_val (settings (run negative_entry initial))) pomodoro = 1510 /\
  at_mode (obj_val (settings (run negative_entry initial))) pomodoro <> 10.
Proof. vm_compute. repeat split; try reflexivity; discriminate. Qed.

(** C3, amended: negative input is rejected, not clamped.  In every
    reachable state with the form open, a value that parses to a negative
    number leaves the form as it was; the fields therefore hold no
    negative number, and for them the saved duration of a row is
    [max(0, minutes) * 60 + max(0, seconds)] in double arithmetic, empty
    fields counting as zero, with the fallback substituted when that sum
    is zero; up to [2 ^ 53] seconds the double arithmetic is exact. *)
Theorem C3_negative_rejected a l :
  reachable a -> modal a = Some l ->
  (forall k f value num,
      parseInt value = Some num -> num < 0 ->
      SettingsModal.handleChange l k f value = l) /\
  (forall k fallback,
      SettingsModal.finalSeconds (SettingsModal.row l k) fallback =
      or_else
        (SettingsModal.seconds_of
           (Z.max 0 (or_zero (SettingsModal.m (SettingsModal.row l k))))
           (Z.max 0 (or_zero (SettingsModal.s (SettingsModal.row l k)))))
        fallback) /\
  (forall k fallback,
      Z.max 0 (or_zero (SettingsModal.m (SettingsModal.row l k))) * 60
      + Z.max 0 (or_zero (SettingsModal.s (SettingsModal.row l k)))
      <= 2 ^ 53 ->
      SettingsModal.finalSeconds (SettingsModal.row l k) fallback =
      or_else
        (Z.max 0 (or_zero (SettingsModal.m (SettingsModal.row l k))) * 60
         + Z.max 0 (or_zero (SettingsModal.s (SettingsModal.row l k))))
        fallback).
Proof.
  intros R M. pose proof (inv_modal a (reachable_Inv a R) l M) as L.
  split; [|split].
  - intros k f value num P N. unfold SettingsModal.handleChange.
    rewrite P.
    replace (0 <=? num) with false by (symmetry; apply Z.leb_gt; exact N).
    destruct value as [|c r]; [discriminate P|reflexivity].
  - intros k fallback. destruct (L k) as [Hm Hs].
    apply or_zero_nonneg in Hm, Hs.
    unfold SettingsModal.finalSeconds, SettingsModal.total.
    now rewrite !Z.max_r by lia.
  - intros k fallback B. destruct (L k) as [Hm Hs].
    apply or_zero_nonneg in Hm, Hs.
    unfold SettingsModal.finalSeconds, SettingsModal.total.
    rewrite !Z.max_r in * by lia.
    now rewrite total_small by lia.
Qed.

Lemma C3_negative_rejected_witness :
  SettingsModal.handleChange (SettingsModal.initial DEFAULT_SETTINGS)
    pomodoro SettingsModal.field_m "-5"
  = SettingsModal.initial DEFAULT_SETTINGS.
Proof.
  pose proof (reachable_run [OpenSettings]) as R.
  assert (M : modal form_open = Some (SettingsModal.initial DEFAULT_SETTINGS))
    by (vm_compute; reflexivity).
  destruct (C3_negative_rejected form_open _ R M) as [H _].
  apply (H pomodoro SettingsModal.field_m "-5"%string (-5)).
  - vm_compute. reflexivity.
  - lia.
Defined.

(** C5: in every reachable state each configured duration is at least
    one second.  When the form is open, saving always succeeds: the form
    closes and the settings become the form's final values; for each
    mode whose entered minutes and seconds add up to zero the saved
    duration is the built-in default of that mode, 1500, 300 and 900
    seconds. *)
Theorem C5_zero_falls_back a :
  reachable a ->
  (forall k, 1 <= at_mode (obj_val (settings a)) k) /\
  (forall l, modal a = Some l ->
     modal (step Save a) = None /\
     obj_val (settings (step Save a)) = SettingsModal.finalSettings l /\
     (forall k, 1 <= at_mode (obj_val (settings (step Save a))) k) /\
     (forall k, SettingsModal.total (SettingsModal.row l k) = 0 ->
        at_mode (obj_val (settings (step Save a))) k
        = at_mode DEFAULT_SETTINGS k)) /\
  at_mode DEFAULT_SETTINGS pomodoro = 1500 /\
  at_mode DEFAULT_SETTINGS shortBreak = 300 /\
  at_mode DEFAULT_SETTINGS longBreak = 900.
Proof.
  intros R. pose proof (reachable_Inv a R) as I.
  split; [apply I|]. split; [|repeat split; reflexivity].
  intros l M.
  assert (H : handle Save a = saveFresh (SettingsModal.finalSettings l) a).
  { cbn. unfold handleSave, mounted. now rewrite M. }
  destruct (saveFresh_fields (SettingsModal.finalSettings l) a)
    as (Fs & _ & _ & _ & Fo).
  pose proof (settle_frame (saveFresh (SettingsModal.finalSettings l) a))
    as (_ & Hs & _ & Hmo & _).
  assert (S : obj_val (settings (step Save a))
              = SettingsModal.finalSettings l).
  { unfold step. now rewrite H, Hs, Fs. }
  split; [|split; [exact S|split]].
  - unfold step. now rewrite H, Hmo.
  - intros k. apply (inv_settings _ (step_Inv Save a I)).
  - intros k Z. rewrite S.
    destruct k; cbn in *; unfold SettingsModal.finalSeconds;
      rewrite Z; reflexivity.
Qed.

Lemma C5_zero_falls_back_witness :
  at_mode (obj_val (settings (step Save form_cleared))) pomodoro = 1500.
Proof.
  pose proof (reachable_run
                [ OpenSettings;
                  Change pomodoro SettingsModal.field_m "";
                  Change pomodoro SettingsModal.field_s "" ]) as R.
  destruct (C5_zero_falls_back form_cleared R) as (_ & H & _).
  assert (M : modal form_cleared =
              Some (SettingsModal.mkLocal
                      (SettingsModal.mkEntry FEmpty FEmpty)
                      (SettingsModal.mkEntry (FNum 5) (FNum 0))
                      (SettingsModal.mkEntry (FNum 15) (FNum 0))))
    by (vm_compute; reflexivity).
  destruct (H _ M) as (_ & _ & _ & Z).
  exact (Z pomodoro eq_refl).
Defined.


(** ** Progress *)

Lemma half_even_near n d :
  0 < d ->
  2 * n - d <= 2 * (half_even n d * d) <= 2 * n + d.
Proof.
  intros D. unfold half_even.
  pose proof (Z.div_mod n d ltac:(lia)) as E.
  pose proof (Z.mod_pos_bound n d D) as B.
  destruct (Z.ltb_spec (2 * (n mod d)) d); [nia|].
  destruct (Z.ltb_spec d (2 * (n mod d))); [nia|].
  destruct (Z.even (n / d)); nia.
Qed.

Lemma log2_ratio_le n d : log2_ratio n d <= Z.log2 n - Z.log2 d.
Proof.
  unfold log2_ratio. cbn zeta.
  match goal with |- (if ?c then _ else _) <= _ => destruct c end; lia.
Qed.

(** Rounding a ratio between zero and one: the result is on a grid of
    at least [2 ^ 52] steps to the unit, between zero and one, and within
    half a step of the ratio. *)
Lemma nearest64_unit n d :
  0 <= n <= d -> 0 < d ->
  (n = 0 /\ nearest64 n d = (0, 0)) \/
  exists me j,
    nearest64 n d = (me, - j) /\ 52 <= j /\ 0 <= me <= 2 ^ j /\
    2 * (n * 2 ^ j) - d <= 2 * (me * d) <= 2 * (n * 2 ^ j) + d.
Proof.
  intros [N0 N1] D. unfold nearest64.
  destruct (Z.eqb_spec n 0) as [->|N]; [left; auto|right].
  set (e := Z.max (log2_ratio n d - 52) (-1074)).
  assert (E : e <= - 52).
  { pose proof (log2_ratio_le n d).
    pose proof (Z.log2_le_mono n d N1). unfold e. lia. }
  replace (0 <=? e) with false by (symmetry; apply Z.leb_gt; lia).
  exists (half_even (n * 2 ^ (- e)) d), (- e).
  assert (J : 0 < 2 ^ (- e)) by (apply Z.pow_pos_nonneg; lia).
  pose proof (half_even_bounds (n * 2 ^ (- e)) d D) as [Lo Hi].
  pose proof (half_even_near (n * 2 ^ (- e)) d D) as Nr.
  split; [now rewrite Z.opp_involutive|]. split; [lia|].
  split; [|exact Nr]. split.
  - assert (0 <= n * 2 ^ (- e) / d) by (apply Z.div_pos; nia). lia.
  - assert (Q : n * 2 ^ (- e) / d <= 2 ^ (- e))
      by (apply Z.div_le_upper_bound; nia).
    destruct (Z.eq_dec (n * 2 ^ (- e) / d) (2 ^ (- e))) as [Eq|Ne]; [|lia].
    pose proof (Z.mul_div_le (n * 2 ^ (- e)) d D) as M. rewrite Eq in M.
    assert (F : n * 2 ^ (- e) = 2 ^ (- e) * d) by nia.
    rewrite half_even_exact; [lia|exact D|].
    rewrite F. apply Z.mod_mul. lia.
Qed.

Lemma fl_unit q :
  (0 <= q <= 1)%Q ->
  exists q', fl q = JFin q' /\ (0 <= q' <= 1)%Q /\
             (q' - q <= ulp_half)%Q /\ (q - q' <= ulp_half)%Q.
Proof.
  intros [Lo Hi]. destruct q as [n d].
  unfold Qle in Lo, Hi. cbn in Lo, Hi.
  assert (N : 0 <= n <= Zpos d) by lia.
  unfold fl. cbn [Qnum Qden].
  rewrite Z.abs_eq by lia.
  replace (n <? 0) with false by (symmetry; apply Z.ltb_ge; lia).
  destruct (nearest64_unit n (Zpos d) N ltac:(lia))
    as [[-> ->]|(me & j & -> & J & [M0 M1] & [E0 E1])].
  - cbn. exists 0%Q. repeat split; unfold Qle; cbn; lia.
  - replace (0 <=? - j) with false by (symmetry; apply Z.leb_gt; lia).
    cbn [andb]. rewrite Z.opp_involutive.
    assert (P : 0 < 2 ^ j) by (apply Z.pow_pos_nonneg; lia).
    assert (P52 : 2 ^ 52 <= 2 ^ j) by (apply Z.pow_le_mono_r; lia).
    exists (me # Z.to_pos (2 ^ j)). split; [reflexivity|].
    unfold ulp_half, Qle, Qminus, Qplus, Qopp. cbn.
    rewrite !Pos2Z.inj_mul, !Z2Pos.id by lia.
    change (Z.pos (2 ^ 53)) with (2 * 2 ^ 52).
    repeat split; nia.
Qed.

(** C4, counterexample to the bounds: focus minutes typed as a one with
    308 zeros are saved as [Infinity] seconds; the state is reachable,
    the time left is infinite too, and [progress] is [NaN], which is not
    a number between 0 and 1. *)
Lemma C4_infinite_duration_counterexample :
  reachable endless /\
  duration endless = INF /\
  timeLeft endless = INF /\
  progress endless = JNaN /\
  (forall q, progress endless <> JFin q).
Proof.
  assert (P : progress endless = JNaN) by (vm_compute; reflexivity).
  split; [eexists; reflexivity|].
  split; [vm_compute; reflexivity|]. split; [vm_compute; reflexivity|].
  split; [exact P|]. intros q. rewrite P. discriminate.
Qed.

(** With a finite duration [progress] is a number between 0 and 1,
    within two roundings of the exact value. *)
Lemma progress_finite a :
  Inv a -> duration a < INF ->
  exists q,
    progress a = JFin q /\ (0 <= q <= 1)%Q /\
    (q - (1 - inject_Z (timeLeft a) / inject_Z (duration a))
     <= 2 * ulp_half)%Q /\
    ((1 - inject_Z (timeLeft a) / inject_Z (duration a)) - q
     <= 2 * ulp_half)%Q.
Proof.
  intros I F.
  assert (D : 1 <= duration a) by apply (inv_settings a I).
  pose proof (inv_low a I) as Lo. pose proof (inv_high a I) as Hi.
  assert (P : (0 < inject_Z (duration a))%Q).
  { change 0%Q with (inject_Z 0). rewrite <- Zlt_Qlt. lia. }
  assert (L : (0 <= inject_Z (timeLeft a) / inject_Z (duration a))%Q).
  { apply Qle_shift_div_l; [exact P|].
    rewrite Qmult_0_l. change 0%Q with (inject_Z 0).
    now rewrite <- Zle_Qle. }
  assert (U : (inject_Z (timeLeft a) / inject_Z (duration a) <= 1)%Q).
  { apply Qle_shift_div_r; [exact P|].
    rewrite Qmult_1_l. now rewrite <- Zle_Qle. }
  destruct (fl_unit _ (conj L U)) as (y & Ey & [Y0 Y1] & Ya & Yb).
  assert (B : (0 <= 1 - y <= 1)%Q) by (split; lra).
  destruct (fl_unit _ B) as (q & Eq & Q01 & Qa & Qb).
  exists q. split; [|split; [exact Q01|split; lra]].
  unfold progress, js_div, is_inf.
  replace (INF <=? Z.abs (timeLeft a)) with false
    by (symmetry; apply Z.leb_gt; lia).
  replace (INF <=? Z.abs (duration a)) with false
    by (symmetry; apply Z.leb_gt; lia).
  replace (duration a =? 0) with false by (symmetry; apply Z.eqb_neq; lia).
  rewrite Ey. cbn [js_one_minus]. exact Eq.
Qed.

(** With an infinite duration [progress] is [NaN] while the time left
    is infinite too, and one otherwise. *)
Lemma progress_infinite a :
  Inv a -> INF <= duration a ->
  progress a = JNaN \/ exists q, progress a = JFin q /\ (q == 1)%Q.
Proof.
  intros I F. pose proof (inv_low a I) as Lo. pose proof INF_pos as P.
  unfold progress, js_div, is_inf.
  replace (INF <=? Z.abs (duration a)) with true
    by (symmetry; apply Z.leb_le; lia).
  destruct (INF <=? Z.abs (timeLeft a)); [left; reflexivity|].
  right. cbn [js_one_minus]. eexists. split; [reflexivity|].
  vm_compute. reflexivity.
Qed.

(** C4, amended: in every reachable state the configured duration of
    the active mode is at least one second, so no division is by zero.
    If that duration is finite, [progress] is a finite number between 0
    and 1, and it is [1 - timeLeft / duration] up to the rounding of the
    division and of the subtraction, at most [2 ^ -53] each.  If it is
    infinite, [progress] is [NaN] or one. *)
Theorem C4_progress a :
  reachable a ->
  1 <= duration a /\
  (duration a < INF ->
   exists q,
     progress a = JFin q /\ (0 <= q <= 1)%Q /\
     (q - (1 - inject_Z (timeLeft a) / inject_Z (duration a))
      <= 2 * ulp_half)%Q /\
     ((1 - inject_Z (timeLeft a) / inject_Z (duration a)) - q
      <= 2 * ulp_half)%Q) /\
  (INF <= duration a ->
   progress a = JNaN \/ exists q, progress a = JFin q /\ (q == 1)%Q).
Proof.
  intros R. pose proof (reachable_Inv a R) as I.
  split; [apply (inv_settings a I)|].
  split; [apply progress_finite | apply progress_infinite]; exact I.
Qed.

Lemma C4_progress_witness :
  exists q, progress ten_ticks = JFin q /\ (0 <= q <= 1)%Q.
Proof.
  destruct (C4_progress ten_ticks
              (reachable_run (ToggleTimer :: repeat Tick 10)))
    as (_ & H & _).
  destruct (H ltac:(vm_compute; reflexivity)) as (q & E & B & _).
  exists q. split; [exact E | exact B].
Defined.

(** * Further properties *)

(** ** Decimal text *)

Lemma digit_cases d :
  0 <= d <= 9 ->
  d = 0 \/ d = 1 \/ d = 2 \/ d = 3 \/ d = 4 \/
  d = 5 \/ d = 6 \/ d = 7 \/ d = 8 \/ d = 9.
Proof. lia. Qed.

Ltac each_digit d H :=
  destruct (digit_cases d H) as
    [->|[->|[->|[->|[->|[->|[->|[->|[->| ->]]]]]]]]].

Lemma digitOf_digitChar d : 0 <= d <= 9 -> digitOf (digitChar d) = Some d.
Proof. intros H. each_digit d H; reflexivity. Qed.

Lemma digitChar_inj d e :
  0 <= d <= 9 -> 0 <= e <= 9 -> digitChar d = digitChar e -> d = e.
Proof.
  intros Hd He E.
  assert (S : digitOf (digitChar d) = digitOf (digitChar e)) by now rewrite E.
  rewrite !digitOf_digitChar in S by assumption. congruence.
Qed.

Lemma parseInt_digit d r :
  0 <= d <= 9 ->
  parseInt (String (digitChar d) r)
  = option_map roundZ (digits None (String (digitChar d) r)).
Proof. intros H. each_digit d H; reflexivity. Qed.

Lemma pow2_succ f : 2 ^ Z.of_nat (S f) = 2 * 2 ^ Z.of_nat f.
Proof. rewrite Nat2Z.inj_succ, Z.pow_succ_r by lia. reflexivity. Qed.

(** The printed digits start with a digit. *)
Lemma toDigits_head f n acc :
  0 <= n ->
  exists d r, 0 <= d <= 9 /\ toDigits (S f) n acc = String (digitChar d) r.
Proof.
  revert n acc. induction f as [|f IH]; intros n acc N.
  - cbn. pose proof (Z.mod_pos_bound n 10 ltac:(lia)).
    destruct (n / 10 =? 0); eexists _, _; split; eauto; lia.
  - change (toDigits (S (S f)) n acc)
      with (let acc' := String (digitChar (n mod 10)) acc in
            if n / 10 =? 0 then acc' else toDigits (S f) (n / 10) acc').
    cbn zeta. pose proof (Z.mod_pos_bound n 10 ltac:(lia)).
    destruct (n / 10 =? 0).
    + eexists _, _; split; eauto; lia.
    + apply IH. apply Z.div_pos; lia.
Qed.

(** Reading the printed digits back. *)
Lemma digits_toDigits f n rest a :
  0 <= n < 2 ^ Z.of_nat (S f) ->
  match a with Some v => v = 0 | None => True end ->
  digits a (toDigits (S f) n rest) = digits (Some n) rest.
Proof.
  revert n rest a. induction f as [|f IH]; intros n rest a N A;
    rewrite pow2_succ in N;
    pose proof (Z.mod_pos_bound n 10 ltac:(lia)) as M;
    pose proof (Z.div_mod n 10 ltac:(lia)) as E;
    cbn [toDigits]; destruct (Z.eqb_spec (n / 10) 0) as [Z0|Z0].
  - cbn [digits]. rewrite digitOf_digitChar by lia.
    f_equal. f_equal. destruct a as [v|]; [subst v|]; lia.
  - cbn in N. exfalso. apply Z0. apply Z.div_small. lia.
  - cbn [digits]. rewrite digitOf_digitChar by lia.
    f_equal. f_equal. destruct a as [v|]; [subst v|]; lia.
  - assert (D : 0 < n / 10) by (pose proof (Z.div_pos n 10); lia).
    change (digits a (toDigits (S f) (n / 10)
                        (String (digitChar (n mod 10)) rest))
            = digits (Some n) rest).
    rewrite IH; [| |exact A].
    + cbn [digits]. rewrite digitOf_digitChar by lia.
      f_equal. f_equal. lia.
    + split; [lia|]. apply Z.div_lt_upper_bound; lia.
Qed.

Lemma fuel_enough n : 0 <= n -> n < 2 ^ Z.of_nat (S (Z.to_nat (Z.log2 n))).
Proof.
  intros N. rewrite Nat2Z.inj_succ, Z2Nat.id by apply Z.log2_nonneg.
  destruct (Z.eq_dec n 0) as [->|P]; [reflexivity|].
  apply Z.log2_spec. lia.
Qed.

Lemma toDigits_app f n acc rest :
  (toDigits f n acc ++ rest)%string = toDigits f n (acc ++ rest)%string.
Proof.
  revert n acc. induction f as [|f IH]; intros n acc; [reflexivity|].
  cbn [toDigits]. destruct (n / 10 =? 0); [reflexivity|].
  now rewrite IH.
Qed.

(** [parseInt] reads back what [decimal] prints, whatever follows it,
    as long as that does not start with a digit. *)
Lemma parseInt_decimal_then n rest :
  match rest with
  | String c _ => digitOf c = None
  | EmptyString => True
  end ->
  parseInt (decimal n ++ rest) = Some (roundZ n).
Proof.
  intros T.
  assert (Stop : forall v, digits (Some v) rest = Some v).
  { intros v. destruct rest as [|c r]; [reflexivity|]. cbn. now rewrite T. }
  unfold decimal. destruct (n <? 0) eqn:S.
  - apply Z.ltb_lt in S. cbn [append].
    change (parseInt (String "-" ?x))
      with (option_map (fun k => roundZ (- k)) (digits None x)).
    rewrite toDigits_app.
    rewrite digits_toDigits; [|split; [lia|apply fuel_enough; lia]|exact I].
    rewrite Stop. cbn. f_equal. f_equal. lia.
  - apply Z.ltb_ge in S. rewrite toDigits_app.
    destruct (toDigits_head (Z.to_nat (Z.log2 n)) n ("" ++ rest)%string S)
      as (d & r & D & E).
    rewrite E, parseInt_digit, <- E by exact D.
    rewrite digits_toDigits; [|split; [lia|apply fuel_enough; lia]|exact I].
    now rewrite Stop.
Qed.

Lemma parseInt_decimal n : parseInt (decimal n) = Some (roundZ n).
Proof.
  rewrite <- (parseInt_decimal_then n EmptyString I).
  f_equal. clear. induction (decimal n) as [|c r IH]; cbn; congruence.
Qed.

Lemma decimal_nonempty n : isEmptyString (decimal n) = false.
Proof.
  unfold decimal. destruct (n <? 0) eqn:S; [reflexivity|].
  apply Z.ltb_ge in S.
  destruct (toDigits_head (Z.to_nat (Z.log2 n)) n "" S) as (d & r & _ & ->).
  reflexivity.
Qed.


(** ** The engine *)

Lemma toggle_plan a :
  Inv a ->
  resets (toggleTimer a) = false /\
  completes (toggleTimer a) = (negb (isActive a) && (timeLeft a =? 0))%bool.
Proof.
  intros I. destruct (Inv_deps a I) as [Dt Dr]. split.
  - unfold resets, toggleTimer. cbn. rewrite Dr.
    change (deps_reset_of (set_isActive (negb (isActive a)) a))
      with (deps_reset_of a).
    now rewrite same_deps_reset_refl.
  - unfold completes, toggleTimer. cbn. rewrite Dt.
    unfold deps_timer_of. cbn. now destruct (isActive a).
Qed.

(** X1: whatever state the component is in, rendering comes to rest:
    after at most two commits no effect is due, a further commit changes
    nothing, and allowing more commits gives the same state. *)
Theorem X1_effects_come_to_rest a :
  quiescent (settle a) = true /\
  flushEffects (settle a) = settle a /\
  forall n, settle_fuel (2 + n) a = settle a.
Proof.
  assert (Q : quiescent (settle a) = true).
  { destruct (settle_cases a) as [[Q ->]|[(_ & Q & ->)|(_ & R & C & ->)]];
      auto using flush_idle_rest. }
  split; [exact Q|]. split; [now apply flush_quiescent|].
  intros n. unfold settle. cbn [Nat.add settle_fuel].
  destruct (quiescent a) eqn:Q0; [reflexivity|].
  destruct (quiescent (flushEffects a)) eqn:Q1; [reflexivity|].
  assert (Q2 : quiescent (flushEffects (flushEffects a)) = true).
  { apply flush_idle_rest; [apply resets_after_flush|].
    apply completes_inactive, flush_restless, Q1. }
  rewrite Q2. destruct n; cbn [settle_fuel]; [reflexivity|].
  now rewrite Q2.
Qed.

(** X2: in every reachable state at most one interval is registered
    with the host: exactly one, the one held in [timerRef], while the
    countdown runs, and none while it does not. *)
Theorem X2_one_interval a :
  reachable a ->
  (isActive a = true ->
   exists h, timerRef a = Some h /\ intervals a = [h]) /\
  (isActive a = false -> intervals a = []).
Proof.
  intros R. pose proof (Inv_intervals a (reachable_Inv a R)) as L.
  split; intros A; now rewrite A in L.
Qed.

Lemma X2_one_interval_witness :
  (exists h, timerRef ten_ticks = Some h /\ intervals ten_ticks = [h]) /\
  intervals finished = [].
Proof.
  destruct (X2_one_interval ten_ticks
              (reachable_run (ToggleTimer :: repeat Tick 10))) as [H _].
  destruct (X2_one_interval finished
              (reachable_step Tick _
                 (reachable_run (one_second ++ [ToggleTimer])))) as [_ G].
  split.
  - apply H. vm_compute. reflexivity.
  - apply G. vm_compute. reflexivity.
Defined.

(** X3: a running countdown of at most [2 ^ 53] seconds followed over
    any number of ticks: after [n] ticks the time left is what it was
    minus [n], but not below zero; the countdown still runs exactly when
    [n] is less than the time it had left; and the completion signal has
    been called once if the ticks reached zero and not at all
    otherwise. *)
Theorem X3_ticks_total a n :
  reachable a -> isActive a = true -> timeLeft a <= 2 ^ 53 ->
  timeLeft (Nat.iter n (step Tick) a) = Z.max 0 (timeLeft a - Z.of_nat n) /\
  isActive (Nat.iter n (step Tick) a) = (Z.of_nat n <? timeLeft a) /\
  completions (Nat.iter n (step Tick) a) =
  (completions a + if (Z.of_nat n <? timeLeft a)%Z then 0 else 1)%nat.
Proof.
  intros R A Bd. pose proof (reachable_Inv a R) as I.
  pose proof (inv_running a I A) as P.
  induction n as [|n (T & B & C)].
  - cbn [Nat.iter nat_rect]. rewrite A.
    replace (Z.of_nat 0 <? timeLeft a) with true
      by (symmetry; apply Z.ltb_lt; lia).
    repeat split; lia.
  - rewrite Nat.iter_succ.
    set (b := Nat.iter n (step Tick) a) in *.
    assert (Ib : Inv b) by (apply iter_Inv, I).
    clearbody b. rewrite Nat2Z.inj_succ.
    destruct (Z.ltb_spec (Z.of_nat n) (timeLeft a)) as [Lt|Ge].
    + destruct (tick_running b Ib B) as (-> & -> & ->).
      rewrite sub1_exact by lia.
      rewrite T, C, Z.max_r by lia.
      destruct (Z.ltb_spec (Z.succ (Z.of_nat n)) (timeLeft a)).
      * replace (timeLeft a - Z.of_nat n =? 1) with false
          by (symmetry; apply Z.eqb_neq; lia).
        repeat split; lia.
      * replace (timeLeft a - Z.of_nat n =? 1) with true
          by (symmetry; apply Z.eqb_eq; lia).
        repeat split; lia.
    + rewrite (tick_stopped b Ib B), T, B, C.
      replace (Z.succ (Z.of_nat n) <? timeLeft a) with false
        by (symmetry; apply Z.ltb_ge; lia).
      repeat split; lia.
Qed.

Lemma X3_ticks_total_witness :
  timeLeft (Nat.iter 1600 (step Tick) (step ToggleTimer initial)) = 0 /\
  isActive (Nat.iter 1600 (step Tick) (step ToggleTimer initial)) = false /\
  completions (Nat.iter 1600 (step Tick) (step ToggleTimer initial))
  = 1%nat.
Proof.
  pose proof (reachable_run [ToggleTimer]) as R.
  assert (A : isActive (run [ToggleTimer] initial) = true)
    by (vm_compute; reflexivity).
  assert (B : timeLeft (run [ToggleTimer] initial) <= 2 ^ 53)
    by (vm_compute; discriminate).
  exact (X3_ticks_total (run [ToggleTimer] initial) 1600 R A B).
Defined.

(** X4: pausing a reachable running countdown keeps the mode and the
    time left, clears the interval so that no tick changes the paused
    state, and signals nothing; starting again gives back the session as
    it was before the pause. *)
Theorem X4_pause_resume a :
  reachable a -> isActive a = true ->
  session (step ToggleTimer a) = (mode a, timeLeft a, false) /\
  intervals (step ToggleTimer a) = [] /\
  (forall n, Nat.iter n (step Tick) (step ToggleTimer a)
             = step ToggleTimer a) /\
  completions (step ToggleTimer a) = completions a /\
  session (step ToggleTimer (step ToggleTimer a)) = session a /\
  completions (step ToggleTimer (step ToggleTimer a)) = completions a.
Proof.
  intros R A. pose proof (reachable_Inv a R) as I.
  pose proof (inv_running a I A) as P.
  destruct (toggle_plan a I) as [Er Ec]. rewrite A in Ec. cbn in Ec.
  assert (S1 : session (step ToggleTimer a) = (mode a, timeLeft a, false)).
  { unfold session, step. cbn [handle].
    destruct (settle_frame (toggleTimer a)) as (-> & _).
    rewrite settle_timeLeft, settle_isActive, Er, Ec.
    unfold toggleTimer. cbn. now rewrite A. }
  assert (C1 : completions (step ToggleTimer a) = completions a).
  { unfold step. cbn [handle]. now rewrite settle_completions, Ec. }
  set (p := step ToggleTimer a) in *.
  assert (Ip : Inv p) by (apply step_Inv, I).
  clearbody p. unfold session in S1. injection S1 as Mp Tp Ap.
  destruct (toggle_plan p Ip) as [Er' Ec']. rewrite Ap, Tp in Ec'.
  replace (timeLeft a =? 0) with false in Ec'
    by (symmetry; apply Z.eqb_neq; lia).
  cbn in Ec'.
  split; [unfold session; now rewrite Mp, Tp, Ap|].
  split; [apply (stopped_no_interval p); [apply Ip|apply Ip|exact Ap]|].
  split; [intros n; now apply ticks_stopped|].
  split; [exact C1|]. split.
  - unfold session, step. cbn [handle].
    destruct (settle_frame (toggleTimer p)) as (-> & _).
    rewrite settle_timeLeft, settle_isActive, Er', Ec'.
    unfold toggleTimer. cbn. now rewrite Mp, Tp, Ap, A.
  - unfold step. cbn [handle]. now rewrite settle_completions, Ec'.
Qed.

Lemma X4_pause_resume_witness :
  session (step ToggleTimer ten_ticks) = (pomodoro, 1490, false) /\
  session (step ToggleTimer (step ToggleTimer ten_ticks))
  = (pomodoro, 1490, true).
Proof.
  pose proof (reachable_run (ToggleTimer :: repeat Tick 10)) as R.
  assert (A : isActive ten_ticks = true) by (vm_compute; reflexivity).
  destruct (X4_pause_resume ten_ticks R A) as (S1 & _ & _ & _ & S2 & _).
  split; [exact S1 | exact S2].
Defined.

Lemma silent_no_completion c a :
  Inv a -> silent c = true -> completes (handle c a) = false.
Proof.
  intros I S. unfold completes.
  assert (N : (isActive a && (timeLeft a =? 0))%bool = false).
  { pose proof (inv_running a I) as P.
    destruct (isActive a); [|reflexivity].
    specialize (P eq_refl). cbn. apply Z.eqb_neq. lia. }
  rewrite <- andb_assoc.
  destruct c; try discriminate S; open_handler a;
    rewrite ?N, ?andb_false_r; reflexivity.
Qed.

Lemma silent_log c a : silent c = true -> log (handle c a) = log a.
Proof. intros S. destruct c; try discriminate S; open_handler a; reflexivity. Qed.

(** X5: from a reachable state, no command other than a tick and the
    start/pause button ever signals completion or touches the audio
    subsystem: selecting a mode, resetting, muting, editing or saving the
    settings leave the trace exactly as it was. *)
Theorem X5_silent_commands c a :
  reachable a -> silent c = true ->
  log (step c a) = log a /\ completions (step c a) = completions a.
Proof.
  intros R S. pose proof (reachable_Inv a R) as I.
  assert (L : log (step c a) = log a).
  { unfold step.
    now rewrite settle_log, silent_no_completion, silent_log. }
  split; [exact L|]. unfold completions. now rewrite L.
Qed.

Lemma X5_silent_commands_witness :
  log (step (SelectMode longBreak) finished) = log finished /\
  completions (step ResetTimer finished) = 1%nat.
Proof.
  pose proof (reachable_step Tick _
                (reachable_run (one_second ++ [ToggleTimer]))) as R.
  destruct (X5_silent_commands (SelectMode longBreak) finished R eq_refl)
    as [L _].
  destruct (X5_silent_commands ResetTimer finished R eq_refl) as [_ C].
  split; [exact L|]. rewrite C. vm_compute. reflexivity.
Defined.

Lemma form_handle c a :
  form_only c = true ->
  handle c a
  = set_lingering (lingering (handle c a)) (set_modal (modal (handle c a)) a).
Proof.
  intros F. destruct c; try discriminate F; open_handler a;
    try reflexivity; destruct a; cbn in *; subst; reflexivity.
Qed.

Lemma form_step c a :
  quiescent a = true -> form_only c = true -> step c a = handle c a.
Proof.
  intros Q F. unfold step. apply settle_fixed.
  rewrite (form_handle c a F). exact Q.
Qed.

(** X6: opening or closing the settings form, typing into it and the
    end of its exit animation change nothing but the form, shown or on
    its way out: in a reachable state the session, the saved settings,
    the live interval and the trace are all as before. *)
Theorem X6_form_is_local c a :
  reachable a -> form_only c = true ->
  step c a
  = set_lingering (lingering (step c a)) (set_modal (modal (step c a)) a).
Proof.
  intros R F. pose proof (inv_rest a (reachable_Inv a R)) as Q.
  rewrite (form_step c a Q F). apply form_handle, F.
Qed.

Lemma X6_form_is_local_witness :
  step (Change shortBreak SettingsModal.field_m "7") form_open
  = set_lingering None
      (set_modal
         (modal (step (Change shortBreak SettingsModal.field_m "7")
                   form_open))
         form_open).
Proof.
  rewrite (X6_form_is_local
             (Change shortBreak SettingsModal.field_m "7") form_open
             (reachable_run [OpenSettings]) eq_refl) at 1.
  f_equal.
Defined.

(** X7: muting or unmuting in a reachable state flips the sound flag and
    leaves the session and the trace alone; but while the countdown runs
    the interval is cleared and a new one is registered, so the current
    second starts over. *)
Theorem X7_sound_toggle a :
  reachable a ->
  soundEnabled (step ToggleSound a) = negb (soundEnabled a) /\
  session (step ToggleSound a) = session a /\
  log (step ToggleSound a) = log a /\
  (isActive a = true ->
   timerRef (step ToggleSound a) = Some (nextHandle a) /\
   intervals (step ToggleSound a) = [nextHandle a] /\
   nextHandle (step ToggleSound a) = Pos.succ (nextHandle a)) /\
  (isActive a = false -> intervals (step ToggleSound a) = []).
Proof.
  intros R. pose proof (reachable_Inv a R) as I.
  destruct (Inv_deps a I) as [Dt Dr].
  set (p := set_soundEnabled (negb (soundEnabled a)) a).
  assert (Er : resets p = false).
  { unfold resets, p. cbn. rewrite Dr.
    change (deps_reset_of (set_soundEnabled (negb (soundEnabled a)) a))
      with (deps_reset_of a).
    now rewrite same_deps_reset_refl. }
  assert (Ec : completes p = false)
    by exact (silent_no_completion ToggleSound a I eq_refl).
  assert (Ed : same_deps_timer (deps_timer p) (deps_timer_of p) = false).
  { unfold p. cbn. rewrite Dt. unfold deps_timer_of. cbn.
    destruct (soundEnabled a); now rewrite andb_false_r. }
  assert (E : step ToggleSound a = flushEffects p).
  { unfold step. cbn [handle]. fold p.
    destruct (settle_cases p) as [[Q _]|[(_ & _ & ->)|(_ & _ & _ & ->)]].
    - unfold quiescent in Q. now rewrite Ed in Q.
    - reflexivity.
    - apply flush_quiescent, flush_idle_rest; assumption. }
  rewrite E.
  destruct (flush_frame p) as (Hm & _ & Hs & _).
  split; [now rewrite Hs|]. split; [|split].
  - unfold session. now rewrite Hm, flush_timeLeft, flush_isActive, Er, Ec.
  - now rewrite flush_log, Ec.
  - pose proof (Inv_intervals a I) as L.
    assert (Sr : same_deps_reset (deps_reset p) (deps_reset_of p) = true)
      by (unfold resets in Er; now apply negb_false_iff in Er).
    unfold flushEffects. rewrite Ed, Sr.
    assert (Dp : deps_timer p = Some (deps_timer_of a)) by exact Dt.
    rewrite Dp. split.
    + intros A. rewrite A in L. destruct L as (h & Tr & Iv).
      pose proof (inv_running a I A) as P. apply Z.ltb_lt in P.
      unfold timerEffect, clearTimer, p. cbn. rewrite A, P, Tr. cbn.
      rewrite Iv. cbn. rewrite Pos.eqb_refl. cbn. auto.
    + intros A. rewrite A in L.
      unfold timerEffect, clearTimer, p. cbn. rewrite A. cbn.
      destruct (timerRef a); cbn; now rewrite L.
Qed.

Lemma X7_sound_toggle_witness :
  session (step ToggleSound ten_ticks) = (pomodoro, 1490, true) /\
  intervals ten_ticks = [11%positive] /\
  intervals (step ToggleSound ten_ticks) = [12%positive].
Proof.
  pose proof (reachable_run (ToggleTimer :: repeat Tick 10)) as R.
  destruct (X7_sound_toggle ten_ticks R) as (_ & S & _ & H & _).
  split; [exact S|]. split; [vm_compute; reflexivity|].
  destruct (H ltac:(vm_compute; reflexivity)) as (_ & Iv & _).
  exact Iv.
Defined.


(** ** The settings form *)

Lemma step_open a :
  quiescent a = true -> modal a = None ->
  step OpenSettings a
  = set_lingering None
      (set_modal
         (Some match lingering a with
               | Some l => l
               | None => SettingsModal.initial (obj_val (settings a))
               end) a).
Proof.
  intros Q M. rewrite (form_step OpenSettings a Q eq_refl).
  cbn. unfold openSettings. rewrite M.
  destruct (lingering a) eqn:L; [reflexivity|].
  destruct a. cbn in *. subst. reflexivity.
Qed.

Lemma step_change a l k f v :
  quiescent a = true ->
  step (Change k f v) (set_lingering None (set_modal (Some l) a))
  = set_lingering None
      (set_modal (Some (SettingsModal.handleChange l k f v)) a).
Proof.
  intros Q. rewrite form_step; [reflexivity|exact Q|reflexivity].
Qed.

Lemma step_save a l :
  step Save (set_lingering None (set_modal (Some l) a))
  = settle (saveFresh (SettingsModal.finalSettings l)
              (set_lingering None (set_modal (Some l) a))).
Proof. reflexivity. Qed.

(** [Math.floor(x / 60)] is the whole quotient as long as [x] is at
    most [2 ^ 53]. *)
Lemma js_floor_div_exact x :
  0 <= x <= 2 ^ 53 -> js_floor_div x 60 = x / 60.
Proof.
  intros [X0 X1].
  destruct (Z.eq_dec x (2 ^ 53)) as [->|N53]; [vm_compute; reflexivity|].
  destruct (Z.eq_dec x 0) as [->|N0]; [reflexivity|].
  unfold js_floor_div, nearest64.
  replace (x <? 0) with false by (symmetry; apply Z.ltb_ge; lia).
  replace (x =? 0) with false by (symmetry; apply Z.eqb_neq; lia).
  set (e := Z.max (log2_ratio x 60 - 52) (-1074)).
  assert (E : e <= - 5).
  { pose proof (log2_ratio_le x 60) as L.
    assert (Z.log2 x < 53) by (apply Z.log2_lt_pow2; lia).
    change (Z.log2 60) with 5 in L. unfold e. lia. }
  replace (0 <=? e) with false by (symmetry; apply Z.leb_gt; lia).
  unfold dy_floor.
  replace (0 <=? e) with false by (symmetry; apply Z.leb_gt; lia).
  set (J := 2 ^ (- e)).
  assert (J32 : 2 ^ 5 <= J) by (apply Z.pow_le_mono_r; lia).
  change (2 ^ 5) with 32 in J32.
  pose proof (half_even_bounds (x * J) 60 ltac:(lia)) as [Lo _].
  pose proof (half_even_near (x * J) 60 ltac:(lia)) as [_ Hi].
  pose proof (Z.div_mod x 60 ltac:(lia)) as Dm.
  pose proof (Z.mod_pos_bound x 60 ltac:(lia)) as Mb.
  assert (L : x / 60 * J <= x * J / 60)
    by (apply Z.div_le_lower_bound; nia).
  symmetry.
  apply Z.div_unique with (r := half_even (x * J) 60 - J * (x / 60));
    [left; nia|ring].
Qed.

Lemma entry_of_small x :
  0 <= x <= 2 ^ 53 ->
  SettingsModal.entry_of x
  = SettingsModal.mkEntry (FNum (x / 60)) (FNum (x mod 60)).
Proof.
  intros H. pose proof INF_pos as I. unfold SettingsModal.entry_of, is_inf.
  replace (INF <=? Z.abs x) with false by (symmetry; apply Z.leb_gt; lia).
  now rewrite js_floor_div_exact, Z.rem_mod_nonneg by lia.
Qed.

Lemma total_entry_of x :
  0 <= x <= 2 ^ 53 -> SettingsModal.total (SettingsModal.entry_of x) = x.
Proof.
  intros H. rewrite entry_of_small by exact H.
  unfold SettingsModal.total. cbn.
  pose proof (Z.div_mod x 60 ltac:(lia)).
  pose proof (Z.mod_pos_bound x 60 ltac:(lia)).
  assert (0 <= x / 60) by (apply Z.div_pos; lia).
  rewrite total_small; lia.
Qed.

Lemma final_of_initial st :
  (forall k, 1 <= at_mode st k <= 2 ^ 53) ->
  SettingsModal.finalSettings (SettingsModal.initial st) = st.
Proof.
  intros H.
  pose proof (H pomodoro). pose proof (H shortBreak).
  pose proof (H longBreak). destruct st as [p sb lb]. cbn in *.
  unfold SettingsModal.finalSettings, SettingsModal.finalSeconds, or_else.
  cbn [SettingsModal.initial SettingsModal.loc_pomodoro
         SettingsModal.loc_shortBreak SettingsModal.loc_longBreak
         for_pomodoro for_shortBreak for_longBreak].
  rewrite !total_entry_of by lia.
  replace (p =? 0) with false by (symmetry; apply Z.eqb_neq; lia).
  replace (sb =? 0) with false by (symmetry; apply Z.eqb_neq; lia).
  replace (lb =? 0) with false by (symmetry; apply Z.eqb_neq; lia).
  reflexivity.
Qed.

(** X8: with no form mounted and every configured duration at most
    [2 ^ 53], opening the settings form in a reachable state and saving
    it without an edit keeps every duration, yet resets the session all
    the same: the time left goes back to the full duration of the active
    mode and a running countdown is stopped. *)
Theorem X8_save_unedited a :
  reachable a -> modal a = None -> lingering a = None ->
  (forall k, at_mode (obj_val (settings a)) k <= 2 ^ 53) ->
  obj_val (settings (run [OpenSettings; Save] a)) = obj_val (settings a) /\
  timeLeft (run [OpenSettings; Save] a) = duration a /\
  isActive (run [OpenSettings; Save] a) = false /\
  intervals (run [OpenSettings; Save] a) = [] /\
  modal (run [OpenSettings; Save] a) = None.
Proof.
  intros R M L B. pose proof (reachable_Inv a R) as I.
  change (run [OpenSettings; Save] a)
    with (step Save (step OpenSettings a)).
  rewrite (step_open a (inv_rest a I) M), L, step_save.
  rewrite final_of_initial
    by (intros k; split; [apply (inv_settings a I)|apply B]).
  destruct (save_at_rest
              (set_lingering None
                 (set_modal
                    (Some (SettingsModal.initial (obj_val (settings a))))
                    a))
              (obj_val (settings a)))
    as (S & _ & T & A & Mo & Iv); try apply I.
  auto.
Qed.

Lemma X8_save_unedited_witness :
  timeLeft ten_ticks = 1490 /\
  obj_val (settings (run [OpenSettings; Save] ten_ticks)) = DEFAULT_SETTINGS /\
  timeLeft (run [OpenSettings; Save] ten_ticks) = 1500 /\
  isActive (run [OpenSettings; Save] ten_ticks) = false.
Proof.
  pose proof (reachable_run (ToggleTimer :: repeat Tick 10)) as R.
  assert (M : modal ten_ticks = None) by (vm_compute; reflexivity).
  assert (L : lingering ten_ticks = None) by (vm_compute; reflexivity).
  assert (B : forall k, at_mode (obj_val (settings ten_ticks)) k <= 2 ^ 53)
    by (intros []; vm_compute; discriminate).
  destruct (X8_save_unedited ten_ticks R M L B) as (S & T & A & _).
  split; [vm_compute; reflexivity|].
  split; [exact S|]. split; [exact T | exact A].
Defined.

(** X9: what [handleChange] does with the decimal text of an integer
    between [- 2 ^ 53] and [2 ^ 53]: a number that is not negative is
    stored in the chosen field, a negative one leaves the form as it was.
    Whatever the text, the rows of the other modes and the other field of
    the same row keep their values. *)
Theorem X9_handleChange_decimal l k f :
  (forall n,
      - 2 ^ 53 <= n <= 2 ^ 53 ->
      SettingsModal.handleChange l k f (decimal n) =
      if 0 <=? n
      then SettingsModal.set_row l k
             (SettingsModal.set_field (SettingsModal.row l k) f (FNum n))
      else l) /\
  (forall value k', k' <> k ->
      SettingsModal.row (SettingsModal.handleChange l k f value) k'
      = SettingsModal.row l k') /\
  (forall value,
      match f with
      | SettingsModal.field_m =>
          SettingsModal.s
            (SettingsModal.row (SettingsModal.handleChange l k f value) k)
          = SettingsModal.s (SettingsModal.row l k)
      | SettingsModal.field_s =>
          SettingsModal.m
            (SettingsModal.row (SettingsModal.handleChange l k f value) k)
          = SettingsModal.m (SettingsModal.row l k)
      end).
Proof.
  split; [|split].
  - intros n B. unfold SettingsModal.handleChange.
    rewrite parseInt_decimal, decimal_nonempty, roundZ_exact by exact B.
    now destruct (0 <=? n).
  - intros value k' N. unfold SettingsModal.handleChange.
    destruct (match parseInt value with
              | Some num => if 0 <=? num then Some num else None
              | None => None
              end); [|destruct (isEmptyString value)];
      destruct k, k'; try reflexivity; congruence.
  - intros value. unfold SettingsModal.handleChange.
    destruct (match parseInt value with
              | Some num => if 0 <=? num then Some num else None
              | None => None
              end); [|destruct (isEmptyString value)];
      destruct f, k; reflexivity.
Qed.

Lemma X9_handleChange_decimal_witness :
  SettingsModal.handleChange (SettingsModal.initial DEFAULT_SETTINGS)
    pomodoro SettingsModal.field_s "42"
  = SettingsModal.set_row (SettingsModal.initial DEFAULT_SETTINGS) pomodoro
      (SettingsModal.mkEntry (FNum 25) (FNum 42)).
Proof.
  destruct (X9_handleChange_decimal
              (SettingsModal.initial DEFAULT_SETTINGS) pomodoro
              SettingsModal.field_s) as [H _].
  exact (H 42 ltac:(lia)).
Defined.

(** X10: [handleChange] keeps only the leading integer of what was
    typed: decimal digits of a number from 0 to [2 ^ 53], followed by
    anything that does not start with a digit (a decimal point, an
    exponent, letters), store that number. *)
Theorem X10_handleChange_truncates l k f n c r :
  0 <= n <= 2 ^ 53 -> digitOf c = None ->
  SettingsModal.handleChange l k f (decimal n ++ String c r) =
  SettingsModal.set_row l k
    (SettingsModal.set_field (SettingsModal.row l k) f (FNum n)).
Proof.
  intros N D. unfold SettingsModal.handleChange.
  rewrite (parseInt_decimal_then n (String c r) D).
  rewrite roundZ_exact by lia.
  replace (0 <=? n) with true by (symmetry; apply Z.leb_le; lia).
  reflexivity.
Qed.

Lemma X10_handleChange_truncates_witness :
  SettingsModal.handleChange (SettingsModal.initial DEFAULT_SETTINGS)
    pomodoro SettingsModal.field_m "1.5"
  = SettingsModal.set_row (SettingsModal.initial DEFAULT_SETTINGS) pomodoro
      (SettingsModal.mkEntry (FNum 1) (FNum 0)).
Proof.
  apply (X10_handleChange_truncates
           (SettingsModal.initial DEFAULT_SETTINGS) pomodoro
           SettingsModal.field_m 1 "."%char "5"%string).
  - lia.
  - vm_compute. reflexivity.
Defined.

Lemma handleChange_number l k f n :
  0 <= n <= 2 ^ 53 ->
  SettingsModal.handleChange l k f (decimal n) =
  SettingsModal.set_row l k
    (SettingsModal.set_field (SettingsModal.row l k) f (FNum n)).
Proof.
  intros N. unfold SettingsModal.handleChange.
  rewrite parseInt_decimal, roundZ_exact by lia.
  replace (0 <=? n) with true by (symmetry; apply Z.leb_le; lia).
  reflexivity.
Qed.

(** X11: the form puts no limit of its own on a duration.  From a
    reachable state with the form not shown, typing zero minutes and the
    decimal text of the wanted seconds into each row and saving makes
    any configuration of durations from one second to [2 ^ 53] seconds
    the current one, and resets the session to the new duration of the
    active mode. *)
Theorem X11_any_config_can_be_typed a cfg :
  reachable a -> modal a = None ->
  (forall k, 1 <= at_mode cfg k <= 2 ^ 53) ->
  obj_val (settings (run (enterConfig cfg) a)) = cfg /\
  timeLeft (run (enterConfig cfg) a) = at_mode cfg (mode a) /\
  isActive (run (enterConfig cfg) a) = false.
Proof.
  intros R M H. pose proof (reachable_Inv a R) as I.
  pose proof (inv_rest a I) as Q.
  pose proof (H pomodoro) as Hp. pose proof (H shortBreak) as Hs.
  pose proof (H longBreak) as Hl.
  destruct cfg as [p sb lb]. cbn in Hp, Hs, Hl.
  unfold enterConfig, enterRow, run.
  cbn [app fold_left for_pomodoro for_shortBreak for_longBreak].
  rewrite (step_open a Q M).
  set (l0 := match lingering a with
             | Some l => l
             | None => SettingsModal.initial (obj_val (settings a))
             end).
  change "0"%string with (decimal 0).
  rewrite !(step_change a) by exact Q.
  rewrite !handleChange_number by lia.
  rewrite step_save.
  match goal with
  | |- context [saveFresh ?c ?b] =>
      assert (E : c = mkSettings p sb lb);
      [|rewrite E;
        destruct (save_at_rest b (mkSettings p sb lb))
          as (S & _ & T & A & _); try apply I; auto]
  end.
  unfold SettingsModal.finalSettings, SettingsModal.finalSeconds,
    SettingsModal.total, or_else. cbn.
  rewrite !total_small by lia. cbn.
  replace (p =? 0) with false by (symmetry; apply Z.eqb_neq; lia).
  replace (sb =? 0) with false by (symmetry; apply Z.eqb_neq; lia).
  replace (lb =? 0) with false by (symmetry; apply Z.eqb_neq; lia).
  reflexivity.
Qed.

Lemma X11_any_config_can_be_typed_witness :
  obj_val (settings (run (enterConfig (mkSettings 7 6000 123456)) ten_ticks))
  = mkSettings 7 6000 123456 /\
  timeLeft (run (enterConfig (mkSettings 7 6000 123456)) ten_ticks) = 7.
Proof.
  pose proof (reachable_run (ToggleTimer :: repeat Tick 10)) as R.
  assert (M : modal ten_ticks = None) by (vm_compute; reflexivity).
  assert (H : forall k, 1 <= at_mode (mkSettings 7 6000 123456) k <= 2 ^ 53)
    by (intros []; cbn; lia).
  destruct (X11_any_config_can_be_typed ten_ticks _ R M H) as (S & T & _).
  split; [exact S | exact T].
Defined.

(** X12: what reopening the form shows.  When the form is closed in a
    reachable state and opened again before its exit animation has
    ended, it comes back as it was, unsaved edits included.  Once the
    exit animation has ended, opening shows the saved settings; each
    duration of at most [2 ^ 53] seconds is split into minutes that are
    not negative and seconds between 0 and 59 that add up to it. *)
Theorem X12_reopen a l :
  reachable a -> modal a = Some l ->
  modal (run [CloseSettings; OpenSettings] a) = Some l /\
  modal (run [CloseSettings; ExitDone; OpenSettings] a)
  = Some (SettingsModal.initial (obj_val (settings a))) /\
  forall k,
    at_mode (obj_val (settings a)) k <= 2 ^ 53 ->
    exists mm ss,
      SettingsModal.row (SettingsModal.initial (obj_val (settings a))) k
      = SettingsModal.mkEntry (FNum mm) (FNum ss) /\
      0 <= mm /\ 0 <= ss < 60 /\
      mm * 60 + ss = at_mode (obj_val (settings a)) k.
Proof.
  intros R M. pose proof (reachable_Inv a R) as I.
  pose proof (inv_rest a I) as Q.
  assert (C : step CloseSettings a
              = set_lingering (Some l) (set_modal None a)).
  { rewrite (form_step CloseSettings a Q eq_refl). cbn.
    unfold closeSettings. now rewrite M. }
  split; [|split].
  - change (run [CloseSettings; OpenSettings] a)
      with (step OpenSettings (step CloseSettings a)).
    rewrite C, step_open; [reflexivity|exact Q|reflexivity].
  - change (run [CloseSettings; ExitDone; OpenSettings] a)
      with (step OpenSettings (step ExitDone (step CloseSettings a))).
    rewrite C, (form_step ExitDone); [|exact Q|reflexivity].
    cbn [handle]. rewrite step_open; [reflexivity|exact Q|reflexivity].
  - intros k B. pose proof (inv_settings a I k) as P.
    exists (at_mode (obj_val (settings a)) k / 60),
           (at_mode (obj_val (settings a)) k mod 60).
    split.
    + destruct k; cbn in *; apply entry_of_small; lia.
    + pose proof (Z.div_mod (at_mode (obj_val (settings a)) k) 60
                    ltac:(lia)).
      pose proof (Z.mod_pos_bound (at_mode (obj_val (settings a)) k) 60
                    ltac:(lia)).
      pose proof (Z.div_pos (at_mode (obj_val (settings a)) k) 60).
      lia.
Qed.

Lemma X12_reopen_witness :
  modal (run [CloseSettings; OpenSettings] form_edited)
  = modal form_edited /\
  modal (run [CloseSettings; ExitDone; OpenSettings] form_edited)
  = Some (SettingsModal.initial DEFAULT_SETTINGS).
Proof.
  assert (M : modal form_edited
              = Some (SettingsModal.mkLocal
                        (SettingsModal.mkEntry (FNum 7) (FNum 0))
                        (SettingsModal.mkEntry (FNum 5) (FNum 0))
                        (SettingsModal.mkEntry (FNum 15) (FNum 0))))
    by (vm_compute; reflexivity).
  destruct (X12_reopen form_edited _
              (reachable_run
                 [ OpenSettings;
                   Change pomodoro SettingsModal.field_m "7" ]) M)
    as (H1 & H2 & _).
  split; [rewrite H1; symmetry; exact M | exact H2].
Defined.

(** ** The display *)

Lemma decimal_one_digit n :
  0 <= n < 10 -> decimal n = String (digitChar n) "".
Proof.
  intros N. unfold decimal.
  replace (n <? 0) with false by (symmetry; apply Z.ltb_ge; lia).
  cbn [toDigits].
  rewrite Z.div_small, Z.mod_small by lia. reflexivity.
Qed.

Lemma log2_fuel n k :
  2 ^ Z.of_nat k <= n -> exists f, Z.to_nat (Z.log2 n) = (k + f)%nat.
Proof.
  intros N.
  assert (P : 0 < 2 ^ Z.of_nat k) by (apply Z.pow_pos_nonneg; lia).
  assert (L : Z.of_nat k <= Z.log2 n).
  { rewrite <- (Z.log2_pow2 (Z.of_nat k)) by lia. apply Z.log2_le_mono, N. }
  exists (Z.to_nat (Z.log2 n) - k)%nat. lia.
Qed.

Lemma decimal_two_digits n :
  10 <= n < 100 ->
  decimal n = String (digitChar (n / 10)) (String (digitChar (n mod 10)) "").
Proof.
  intros N. unfold decimal.
  replace (n <? 0) with false by (symmetry; apply Z.ltb_ge; lia).
  destruct (log2_fuel n 1) as (f & ->); [cbn; lia|].
  assert (D : 1 <= n / 10 < 10).
  { split; [apply Z.div_le_lower_bound; lia|
            apply Z.div_lt_upper_bound; lia]. }
  cbn [Nat.add toDigits].
  replace (n / 10 =? 0) with false by (symmetry; apply Z.eqb_neq; lia).
  rewrite (Z.div_small (n / 10)), (Z.mod_small (n / 10)) by lia.
  reflexivity.
Qed.

Lemma length_append v w :
  String.length (v ++ w) = (String.length v + String.length w)%nat.
Proof. induction v as [|c v IH]; cbn; congruence. Qed.

Lemma length_toDigits f n acc :
  (String.length acc <= String.length (toDigits f n acc))%nat.
Proof.
  revert n acc. induction f as [|f IH]; intros n acc; cbn [toDigits];
    [lia|].
  destruct (n / 10 =? 0); [cbn; lia|].
  specialize (IH (n / 10) (String (digitChar (n mod 10)) acc)).
  cbn in IH. lia.
Qed.

Lemma decimal_three_digits n :
  100 <= n -> (3 <= String.length (decimal n))%nat.
Proof.
  intros N. unfold decimal.
  replace (n <? 0) with false by (symmetry; apply Z.ltb_ge; lia).
  destruct (log2_fuel n 2) as (f & ->); [cbn; lia|].
  assert (D : 10 <= n / 10) by (apply Z.div_le_lower_bound; lia).
  assert (D' : 1 <= n / 10 / 10) by (apply Z.div_le_lower_bound; lia).
  cbn [Nat.add toDigits].
  replace (n / 10 =? 0) with false by (symmetry; apply Z.eqb_neq; lia).
  replace (n / 10 / 10 =? 0) with false by (symmetry; apply Z.eqb_neq; lia).
  destruct (n / 10 / 10 / 10 =? 0); [cbn; lia|].
  match goal with
  | |- (_ <= String.length (toDigits ?g ?k ?acc))%nat =>
      pose proof (length_toDigits g k acc) as L
  end.
  cbn in L. lia.
Qed.

(** Above [2 ^ 53 + 1] no integer rounds down to [2 ^ 53] or below. *)
Lemma round_pos_above c : 2 ^ 53 + 2 <= c -> 2 ^ 53 < round_pos c.
Proof.
  intros C. pose proof INF_pos as I. unfold round_pos.
  apply Z.min_glb_lt; [|exact I].
  assert (L : 53 <= Z.log2 c).
  { rewrite <- (Z.log2_pow2 53) by lia. apply Z.log2_le_mono. lia. }
  pose proof (Z.log2_spec c ltac:(lia)) as [S _].
  pose proof (grid_pos c) as G.
  pose proof (half_even_bounds c (grid c) G) as [H _].
  assert (E : grid c * 2 ^ 52 = 2 ^ Z.log2 c).
  { unfold grid. rewrite Z.max_r by lia.
    rewrite <- Z.pow_add_r by lia. f_equal. lia. }
  assert (Q : 2 ^ 52 <= c / grid c)
    by (apply Z.div_le_lower_bound; [exact G|lia]).
  destruct (Z.eq_dec (Z.log2 c) 53) as [L53|N53].
  - assert (G2 : grid c = 2)
      by (unfold grid; rewrite L53; reflexivity).
    rewrite G2 in *.
    assert (2 ^ 52 + 1 <= c / 2) by (apply Z.div_le_lower_bound; lia).
    lia.
  - assert (G4 : 2 ^ 2 <= grid c).
    { unfold grid. apply Z.pow_le_mono_r; lia. }
    change (2 ^ 2) with 4 in G4.
    assert (2 ^ 52 * grid c <= half_even c (grid c) * grid c)
      by (apply Z.mul_le_mono_nonneg_r; lia).
    lia.
Qed.

Lemma candidate_bounds x j :
  0 <= x -> 0 <= j ->
  0 <= x / 10 ^ j * 10 ^ j <= x /\ x < x / 10 ^ j * 10 ^ j + 10 ^ j.
Proof.
  intros X J.
  assert (P : 0 < 10 ^ j) by (apply Z.pow_pos_nonneg; lia).
  pose proof (Z.div_mod x (10 ^ j) ltac:(lia)) as D.
  pose proof (Z.mod_pos_bound x (10 ^ j) P) as M.
  pose proof (Z.div_pos x (10 ^ j) X P) as Q.
  nia.
Qed.

(** Up to [2 ^ 53] only the number itself reads back as it. *)
Lemma candidate_small x j c :
  0 <= x <= 2 ^ 53 -> 1 <= j -> candidate x j = Some c -> c = x.
Proof.
  intros X J. unfold candidate. cbn zeta.
  destruct (candidate_bounds x j ltac:(lia) ltac:(lia)) as [Lo Hi].
  set (lo := x / 10 ^ j * 10 ^ j) in *.
  assert (T : exists k, lo + 10 ^ j = 10 * k).
  { exists ((x / 10 ^ j + 1) * 10 ^ (j - 1)). unfold lo.
    replace (10 ^ j) with (10 * 10 ^ (j - 1)); [ring|].
    rewrite <- Z.pow_succ_r by lia. f_equal. lia. }
  destruct T as (k & T).
  assert (RL : roundZ lo = lo) by (apply roundZ_exact; lia).
  assert (RH : roundZ (lo + 10 ^ j) <> x).
  { destruct (Z.le_gt_cases (lo + 10 ^ j) (2 ^ 53)) as [S|B].
    - rewrite roundZ_exact by lia. lia.
    - assert (A : 2 ^ 53 + 2 <= lo + 10 ^ j).
      { rewrite T in *. change (2 ^ 53) with 9007199254740992 in *. lia. }
      pose proof (round_pos_above _ A) as R.
      unfold roundZ.
      replace (lo + 10 ^ j <? 0) with false
        by (symmetry; apply Z.ltb_ge; lia).
      lia. }
  rewrite RL.
  destruct (Z.eqb_spec lo x) as [E|N];
    destruct (Z.eqb_spec (roundZ (lo + 10 ^ j)) x) as [E'|N'];
    try (now exfalso; apply RH); try discriminate.
  intros [= <-]. exact E.
Qed.

Lemma shortest_small f x :
  0 <= x <= 2 ^ 53 -> fst (shortest f x) = x.
Proof.
  intros X. induction f as [|f IH]; [reflexivity|].
  cbn [shortest].
  destruct (candidate x (Z.of_nat (S f))) as [c|] eqn:C; [|exact IH].
  cbn. apply (candidate_small x (Z.of_nat (S f)) c X); [lia|exact C].
Qed.

(** Up to [2 ^ 53] a number prints with every digit. *)
Lemma toString_small x : 0 <= x <= 2 ^ 53 -> toString x = decimal x.
Proof.
  intros X. pose proof INF_pos as I. unfold toString, toStringPos.
  replace (x <? 0) with false by (symmetry; apply Z.ltb_ge; lia).
  replace (INF <=? x) with false by (symmetry; apply Z.leb_gt; lia).
  pose proof (shortest_small (Z.to_nat ((Z.log2 x + 1) / 3)) x X) as S.
  destruct (shortest (Z.to_nat ((Z.log2 x + 1) / 3)) x) as [c j].
  cbn in S. subst c.
  replace (x <? 10 ^ 21) with true; [reflexivity|].
  symmetry. apply Z.ltb_lt.
  change (2 ^ 53) with 9007199254740992 in X.
  change (10 ^ 21) with 1000000000000000000000. lia.
Qed.

Lemma pad_two n :
  0 <= n < 100 ->
  padStart 2 "0" (toString n)
  = String (digitChar (n / 10)) (String (digitChar (n mod 10)) "").
Proof.
  intros N.
  rewrite toString_small
    by (change (2 ^ 53) with 9007199254740992; lia).
  destruct (Z.lt_ge_cases n 10) as [S|L].
  - rewrite decimal_one_digit, Z.div_small, Z.mod_small by lia.
    reflexivity.
  - now rewrite decimal_two_digits by lia.
Qed.

(** A decimal that reads back as a number from 100 on is itself at
    least 100. *)
Lemma candidate_large x j c :
  100 <= x -> 0 <= j -> candidate x j = Some c -> 100 <= c.
Proof.
  intros X J. unfold candidate. cbn zeta.
  destruct (candidate_bounds x j ltac:(lia) J) as [Lo Hi].
  set (lo := x / 10 ^ j * 10 ^ j) in *.
  assert (L : roundZ lo = x -> 100 <= lo).
  { intros R. destruct (Z.le_gt_cases 100 lo) as [G|S]; [exact G|].
    rewrite roundZ_exact in R
      by (change (2 ^ 53) with 9007199254740992; lia).
    lia. }
  destruct (Z.eqb_spec (roundZ lo) x) as [E|N];
    destruct (Z.eqb_spec (roundZ (lo + 10 ^ j)) x) as [E'|N'];
    try discriminate.
  - specialize (L E). intros [= <-].
    destruct (x - lo <? lo + 10 ^ j - x); [lia|].
    destruct (lo + 10 ^ j - x <? x - lo); [lia|].
    destruct (Z.even (x / 10 ^ j)); lia.
  - specialize (L E). intros [= <-]. lia.
  - intros [= <-]. lia.
Qed.

Lemma shortest_large f x : 100 <= x -> 100 <= fst (shortest f x).
Proof.
  intros X. induction f as [|f IH]; [exact X|].
  cbn [shortest].
  destruct (candidate x (Z.of_nat (S f))) as [c|] eqn:C; [|exact IH].
  cbn. apply (candidate_large x (Z.of_nat (S f)) c X); [lia|exact C].
Qed.

Lemma exponential_length c j : (3 <= String.length (exponential c j))%nat.
Proof.
  unfold exponential. cbn zeta.
  pose proof (decimal_nonempty (Z.of_nat (String.length (decimal c)) - 1))
    as E.
  destruct (decimal (Z.of_nat (String.length (decimal c)) - 1)) as [|e r];
    [discriminate E|].
  destruct (decimal (c / 10 ^ j)) as [|d [|d' r']];
    cbn [String.length append]; try rewrite !length_append;
    cbn [String.length]; lia.
Qed.

(** From 100 on a number prints with three characters or more, in
    whichever form. *)
Lemma toString_three x : 100 <= x -> (3 <= String.length (toString x))%nat.
Proof.
  intros X. unfold toString, toStringPos.
  replace (x <? 0) with false by (symmetry; apply Z.ltb_ge; lia).
  destruct (INF <=? x); [cbn; lia|].
  pose proof (shortest_large (Z.to_nat ((Z.log2 x + 1) / 3)) x X) as S.
  destruct (shortest (Z.to_nat ((Z.log2 x + 1) / 3)) x) as [c j].
  cbn in S.
  destruct (c <? 10 ^ 21);
    [apply decimal_three_digits, S | apply exponential_length].
Qed.

(** The whole minutes of 6000 seconds or more are at least 100. *)
Lemma js_floor_div_large x : 6000 <= x -> 100 <= js_floor_div x 60.
Proof.
  intros X. unfold js_floor_div, nearest64.
  replace (x <? 0) with false by (symmetry; apply Z.ltb_ge; lia).
  replace (x =? 0) with false by (symmetry; apply Z.eqb_neq; lia).
  set (e := Z.max (log2_ratio x 60 - 52) (-1074)).
  unfold dy_floor.
  destruct (Z.leb_spec 0 e) as [P|N].
  - assert (E : e <= Z.log2 x - 57).
    { pose proof (log2_ratio_le x 60) as L.
      change (Z.log2 60) with 5 in L. unfold e in *. lia. }
    pose proof (Z.log2_spec x ltac:(lia)) as [S _].
    assert (G : 0 < 2 ^ e) by (apply Z.pow_pos_nonneg; lia).
    assert (F : 2 ^ e * 2 ^ 57 <= x).
    { rewrite <- Z.pow_add_r by lia.
      apply Z.le_trans with (2 ^ Z.log2 x); [|exact S].
      apply Z.pow_le_mono_r; lia. }
    change (2 ^ 57) with 144115188075855872 in F.
    pose proof (half_even_bounds x (60 * 2 ^ e) ltac:(lia)) as [H _].
    assert (Q : 100 <= x / (60 * 2 ^ e))
      by (apply Z.div_le_lower_bound; lia).
    nia.
  - set (J := 2 ^ (- e)).
    assert (G : 0 < J) by (apply Z.pow_pos_nonneg; lia).
    pose proof (half_even_bounds (x * J) 60 ltac:(lia)) as [H _].
    apply Z.div_le_lower_bound; [exact G|].
    assert (Q : 100 * J <= x * J / 60)
      by (apply Z.div_le_lower_bound; nia).
    lia.
Qed.

(** X13: for a time from zero up to 99 minutes 59 seconds,
    [formatTime] is exactly five characters: the two decimal digits of
    the whole minutes, a colon, and the two decimal digits of the seconds
    left over, each with its leading zero. *)
Theorem X13_formatTime_shape x :
  0 <= x < 6000 ->
  formatTime x =
  String (digitChar (x / 60 / 10))
    (String (digitChar (x / 60 mod 10))
       (String ":"
          (String (digitChar (x mod 60 / 10))
             (String (digitChar (x mod 60 mod 10)) "")))) /\
  String.length (formatTime x) = 5%nat.
Proof.
  intros X. pose proof INF_pos as I.
  assert (M : 0 <= x / 60 < 100).
  { split; [apply Z.div_pos; lia|apply Z.div_lt_upper_bound; lia]. }
  pose proof (Z.mod_pos_bound x 60 ltac:(lia)) as S.
  assert (E : formatTime x =
              String (digitChar (x / 60 / 10))
                (String (digitChar (x / 60 mod 10))
                   (String ":"
                      (String (digitChar (x mod 60 / 10))
                         (String (digitChar (x mod 60 mod 10)) ""))))).
  { unfold formatTime, is_inf. cbn zeta.
    replace (INF <=? Z.abs x) with false
      by (symmetry; apply Z.leb_gt; lia).
    rewrite js_floor_div_exact
      by (change (2 ^ 53) with 9007199254740992; lia).
    rewrite Z.rem_mod_nonneg by lia.
    rewrite !pad_two by lia. reflexivity. }
  split; [exact E|]. now rewrite E.
Qed.

Lemma X13_formatTime_shape_witness :
  formatTime 1490 = "24:50"%string /\ formatTime 5 = "00:05"%string.
Proof.
  destruct (X13_formatTime_shape 1490 ltac:(lia)) as [E _].
  destruct (X13_formatTime_shape 5 ltac:(lia)) as [F _].
  split; [rewrite E | rewrite F]; vm_compute; reflexivity.
Defined.

(** X14: from 100 minutes on, [formatTime] no longer fits the five
    characters of the clock: the minutes take three digits or more. *)
Theorem X14_formatTime_overflow x :
  6000 <= x -> (6 <= String.length (formatTime x))%nat.
Proof.
  intros X. unfold formatTime. cbn zeta. rewrite !length_append.
  unfold padStart at 1. rewrite length_append.
  destruct (is_inf x) eqn:F.
  - assert (M : 100 <= x) by lia.
    pose proof (toString_three x M) as L.
    cbn [String.length padStart replicate Nat.sub append]. lia.
  - pose proof (toString_three _ (js_floor_div_large x X)) as L.
    pose proof (Z.rem_bound_pos x 60 ltac:(lia) ltac:(lia)) as S.
    rewrite (pad_two (Z.rem x 60)) by lia.
    cbn [String.length]. lia.
Qed.

Lemma X14_formatTime_overflow_witness :
  (6 <= String.length (formatTime 6000))%nat.
Proof. apply X14_formatTime_overflow. lia. Defined.

(** X15: what the label under the clock says in a reachable state:
    "Finished" exactly when no time is left, "Running" exactly when an
    interval is live, and "Paused" exactly when the countdown is stopped
    with time left, which includes a session that was never started. *)
Theorem X15_status_label a :
  reachable a ->
  (statusLabel a = "Finished"%string <-> timeLeft a = 0) /\
  (statusLabel a = "Running"%string <-> intervals a <> []) /\
  (statusLabel a = "Paused"%string <->
   isActive a = false /\ 0 < timeLeft a).
Proof.
  intros R. pose proof (reachable_Inv a R) as I.
  pose proof (inv_running a I) as P. pose proof (inv_low a I) as Lo.
  pose proof (Inv_intervals a I) as L.
  assert (F : forall (X Y Z : Prop), X -> Y -> Z -> X /\ Y /\ Z) by tauto.
  unfold statusLabel. destruct (isActive a).
  - specialize (P eq_refl). destruct L as (h & _ & ->).
    apply F; split; intros H; try discriminate H; try discriminate;
      try lia; try reflexivity.
  - rewrite L. destruct (Z.eqb_spec (timeLeft a) 0) as [Z0|N0].
    + apply F; split; intros H; try discriminate H; try lia;
        try reflexivity; try (now exfalso; apply H).
    + apply F; split; intros H; try discriminate H; try lia;
        try reflexivity; try (now exfalso; apply H).
Qed.

Lemma X15_status_label_witness :
  statusLabel initial = "Paused"%string /\
  statusLabel finished = "Finished"%string.
Proof.
  destruct (X15_status_label initial (reachable_run [])) as (_ & _ & [_ P]).
  destruct (X15_status_label finished
              (reachable_step Tick _
                 (reachable_run (one_second ++ [ToggleTimer]))))
    as ([_ F] & _).
  split.
  - apply P. vm_compute. split; reflexivity.
  - apply F. vm_compute. reflexivity.
Defined.

(** X16: each tick of a reachable running countdown of at most
    [2 ^ 53] seconds moves [progress] up by one over the configured
    duration, up to the rounding of the two values, [2 ^ -51] in all;
    for a duration of at most [2 ^ 50] seconds the move is a strict
    increase. *)
Theorem X16_progress_advances a :
  reachable a -> isActive a = true -> duration a <= 2 ^ 53 ->
  exists q q',
    progress a = JFin q /\
    progress (step Tick a) = JFin q' /\
    (q' - (q + 1 / inject_Z (duration a)) <= 4 * ulp_half)%Q /\
    ((q + 1 / inject_Z (duration a)) - q' <= 4 * ulp_half)%Q /\
    (duration a <= 2 ^ 50 -> (q < q')%Q).
Proof.
  intros R A B. pose proof (reachable_Inv a R) as I.
  pose proof INF_pos as F.
  pose proof (inv_settings a I (mode a)) as D. fold (duration a) in D.
  pose proof (inv_running a I A) as P. pose proof (inv_high a I) as Hi.
  destruct (tick_running a I A) as (T & _).
  rewrite sub1_exact in T by lia.
  assert (Du : duration (step Tick a) = duration a).
  { unfold step. rewrite settle_duration. cbn [handle].
    unfold intervalFires. now destruct (intervals a). }
  destruct (progress_finite a I ltac:(lia)) as (q & Eq & _ & Qa & Qb).
  destruct (progress_finite (step Tick a) (step_Inv Tick a I)
              ltac:(rewrite Du; lia)) as (q' & Eq' & _ & Qa' & Qb').
  rewrite Du, T in Qa', Qb'.
  assert (Pd : (0 < inject_Z (duration a))%Q).
  { change 0%Q with (inject_Z 0). rewrite <- Zlt_Qlt. lia. }
  assert (E : (1 - inject_Z (timeLeft a - 1) / inject_Z (duration a)
               == 1 - inject_Z (timeLeft a) / inject_Z (duration a)
                  + 1 / inject_Z (duration a))%Q).
  { unfold Z.sub. rewrite inject_Z_plus, inject_Z_opp.
    change (inject_Z 1) with 1%Q. field.
    intros Z0. rewrite Z0 in Pd. now apply Qlt_irrefl in Pd. }
  rewrite E in Qa', Qb'.
  exists q, q'. split; [exact Eq|]. split; [exact Eq'|].
  split; [lra|]. split; [lra|].
  intros S.
  assert (G : (1 # 2 ^ 50 <= 1 / inject_Z (duration a))%Q).
  { apply Qle_shift_div_l; [exact Pd|].
    unfold Qle, Qmult, inject_Z. cbn [Qnum Qden].
    change (2 ^ 50) with 1125899906842624 in S. lia. }
  assert (U : (4 * ulp_half < 1 # 2 ^ 50)%Q) by reflexivity.
  lra.
Qed.

Lemma X16_progress_advances_witness :
  exists q q',
    progress ten_ticks = JFin q /\
    progress (step Tick ten_ticks) = JFin q' /\
    (q < q')%Q.
Proof.
  destruct (X16_progress_advances ten_ticks
              (reachable_run (ToggleTimer :: repeat Tick 10))
              ltac:(vm_compute; reflexivity)
              ltac:(vm_compute; discriminate))
    as (q & q' & E & E' & _ & _ & S).
  exists q, q'. split; [exact E|]. split; [exact E'|].
  apply S. vm_compute. discriminate.
Defined.

(** ** Cancelling a countdown *)

Lemma select_other a k :
  Inv a -> k <> mode a ->
  mode (step (SelectMode k) a) = k /\
  settings (step (SelectMode k) a) = settings a /\
  timeLeft (step (SelectMode k) a) = at_mode (obj_val (settings a)) k /\
  isActive (step (SelectMode k) a) = false.
Proof.
  intros I N. destruct (Inv_deps a I) as [_ Dr].
  assert (Er : resets (setMode k a) = true).
  { unfold resets, setMode. cbn. rewrite Dr. unfold deps_reset_of. cbn.
    destruct (Mode_eqb (mode a) k) eqn:E; [|reflexivity].
    apply Mode_eqb_eq in E. congruence. }
  unfold step. cbn [handle].
  destruct (settle_frame (setMode k a)) as (-> & -> & _).
  now rewrite settle_timeLeft, settle_isActive, Er.
Qed.

(** X17: switching to another mode and straight back loses the
    progress of a reachable session: the mode is the one it was, but the
    time left is its full configured duration and the countdown is
    stopped, with nothing signalled. *)
Theorem X17_mode_round_trip a k :
  reachable a -> k <> mode a ->
  session (run [SelectMode k; SelectMode (mode a)] a)
  = (mode a, duration a, false) /\
  intervals (run [SelectMode k; SelectMode (mode a)] a) = [] /\
  log (run [SelectMode k; SelectMode (mode a)] a) = log a.
Proof.
  intros R N. pose proof (reachable_Inv a R) as I.
  change (run [SelectMode k; SelectMode (mode a)] a)
    with (step (SelectMode (mode a)) (step (SelectMode k) a)).
  destruct (select_other a k I N) as (M1 & S1 & _ & _).
  set (b := step (SelectMode k) a) in *.
  assert (Ib : Inv b) by (apply step_Inv, I).
  assert (Lb : log b = log a).
  { unfold b, step.
    rewrite settle_log, (silent_no_completion (SelectMode k) a I eq_refl).
    reflexivity. }
  clearbody b.
  assert (N' : mode a <> mode b) by congruence.
  destruct (select_other b (mode a) Ib N') as (M2 & _ & T2 & A2).
  split; [|split].
  - unfold session, duration. now rewrite M2, T2, A2, S1.
  - now apply step_no_interval.
  - unfold step.
    rewrite settle_log,
      (silent_no_completion (SelectMode (mode a)) b Ib eq_refl).
    exact Lb.
Qed.

Lemma X17_mode_round_trip_witness :
  session ten_ticks = (pomodoro, 1490, true) /\
  session (run [SelectMode longBreak; SelectMode pomodoro] ten_ticks)
  = (pomodoro, 1500, false).
Proof.
  pose proof (reachable_run (ToggleTimer :: repeat Tick 10)) as R.
  assert (N : longBreak <> mode ten_ticks) by (vm_compute; discriminate).
  destruct (X17_mode_round_trip ten_ticks longBreak R N) as (S & _).
  split; [vm_compute; reflexivity | exact S].
Defined.

(** X18: a reset in a reachable state cancels the ticking: the time
    left is the full duration of the active mode, no interval stays
    live, so no later tick changes anything until the countdown is
    started, and nothing is signalled. *)
Theorem X18_reset_cancels a :
  reachable a ->
  session (step ResetTimer a) = (mode a, duration a, false) /\
  intervals (step ResetTimer a) = [] /\
  (forall n, Nat.iter n (step Tick) (step ResetTimer a)
             = step ResetTimer a) /\
  log (step ResetTimer a) = log a.
Proof.
  intros R. pose proof (reachable_Inv a R) as I.
  assert (A : isActive (step ResetTimer a) = false).
  { unfold step. cbn [handle]. rewrite settle_isActive.
    now destruct (resets (resetTimer a)), (completes (resetTimer a)). }
  split; [|split; [|split]].
  - unfold session. rewrite A. unfold step. cbn [handle].
    destruct (settle_frame (resetTimer a)) as (-> & _).
    rewrite settle_timeLeft. now destruct (resets (resetTimer a)).
  - now apply step_no_interval.
  - intros n. apply ticks_stopped; [apply step_Inv, I|exact A].
  - unfold step.
    now rewrite settle_log, (silent_no_completion ResetTimer a I eq_refl).
Qed.

Lemma X18_reset_cancels_witness :
  session (step ResetTimer ten_ticks) = (pomodoro, 1500, false) /\
  Nat.iter 3 (step Tick) (step ResetTimer ten_ticks)
  = step ResetTimer ten_ticks.
Proof.
  destruct (X18_reset_cancels ten_ticks
              (reachable_run (ToggleTimer :: repeat Tick 10)))
    as (S & _ & T & _).
  split; [exact S | exact (T 3%nat)].
Defined.

(** ** Numbers beyond the exact range *)

(** X19: a countdown can be stuck.  In a reachable running state whose
    time left is a double that subtracting one does not change (every
    double from [2 ^ 54] on, and [Infinity]), a tick changes nothing at
    all, so no number of ticks moves the clock or completes the
    session. *)
Theorem X19_stuck_countdown a n :
  reachable a -> isActive a = true ->
  js_sub1 (timeLeft a) = timeLeft a ->
  run (repeat Tick n) a = a.
Proof.
  intros R A S. pose proof (reachable_Inv a R) as I.
  assert (T : step Tick a = a).
  { unfold step. cbn [handle]. rewrite (tick_fires a I A), S.
    replace (set_timeLeft (timeLeft a) a) with a by (now destruct a).
    apply settle_fixed, I. }
  induction n as [|n IH]; [reflexivity|].
  cbn [repeat]. unfold run in *. cbn [fold_left]. now rewrite T.
Qed.

Lemma X19_stuck_countdown_witness :
  timeLeft far_running = 2 ^ 54 /\
  run (repeat Tick 3) far_running = far_running /\
  timeLeft endless_running = INF /\
  run (repeat Tick 3) endless_running = endless_running.
Proof.
  split; [vm_compute; reflexivity|].
  split.
  - apply (X19_stuck_countdown far_running 3).
    + exact (reachable_run
               [ OpenSettings;
                 Change pomodoro SettingsModal.field_m "0";
                 Change pomodoro SettingsModal.field_s "18014398509481984";
                 Save;
                 ToggleTimer ]).
    + vm_compute. reflexivity.
    + vm_compute. reflexivity.
  - split; [vm_compute; reflexivity|].
    apply (X19_stuck_countdown endless_running 3).
    + exact (reachable_step ToggleTimer _
               (reachable_run
                  [ OpenSettings;
                    Change pomodoro SettingsModal.field_m huge_minutes;
                    Save ])).
    + vm_compute. reflexivity.
    + vm_compute. reflexivity.
Defined.

(** X20: [parseInt] gives the double nearest to the integer that the
    digits spell: exactly that integer up to [2 ^ 53] either side of
    zero, [2 ^ 53] for the digits of [2 ^ 53 + 1], and [Infinity] for a
    one followed by 309 zeros. *)
Theorem X20_parseInt_rounds :
  (forall n, parseInt (decimal n) = Some (roundZ n)) /\
  (forall n, - 2 ^ 53 <= n <= 2 ^ 53 -> parseInt (decimal n) = Some n) /\
  parseInt "9007199254740993" = Some (2 ^ 53) /\
  parseInt (String "1" (replicate 309 "0")) = Some INF.
Proof.
  split; [exact parseInt_decimal|].
  split; [|split; vm_compute; reflexivity].
  intros n B. now rewrite parseInt_decimal, roundZ_exact.
Qed.

(** X21: the clock of an infinite countdown reads [Infinity:NaN]. *)
Theorem X21_formatTime_infinite x :
  INF <= x -> formatTime x = "Infinity:NaN"%string.
Proof.
  intros X. pose proof INF_pos as P. unfold formatTime, is_inf.
  replace (INF <=? Z.abs x) with true by (symmetry; apply Z.leb_le; lia).
  cbn zeta. unfold toString, toStringPos.
  replace (x <? 0) with false by (symmetry; apply Z.ltb_ge; lia).
  replace (INF <=? x) with true by (symmetry; apply Z.leb_le; lia).
  reflexivity.
Qed.

Lemma X21_formatTime_infinite_witness :
  formatTime (timeLeft endless) = "Infinity:NaN"%string.
Proof.
  apply X21_formatTime_infinite. vm_compute. discriminate.
Defined.
